(** * code_optimizer: the AST rewriting pass of [code_optimizer.py]

    A shallow embedding of [CodeOptimizer] (an [ast.NodeTransformer]) and of
    [optimize_code], together with the properties of the rewriting pass.

    Python's syntax tree is a tree of dynamically typed objects: a node is an
    instance of some class of the [ast] module, its children are the
    attributes named by the class's [_fields], and the transformer tests
    shapes at run time with [isinstance], [len] and [==].  The embedding keeps
    that view: a node is a class name with the ordered list of the attributes
    it carries, an attribute may be absent, and reading an absent attribute
    raises [AttributeError] as it does in Python. *)

From Stdlib Require Import String List ZArith Bool Lia.
Import ListNotations.
Open Scope string_scope.
Open Scope list_scope.

Set Implicit Arguments.
Set Warnings "-register-all".

(** ** Exceptions and results *)

Inductive exn : Type :=
| AttributeError
| TypeError
| SyntaxError
| ValueError
| OSError.

(** [except (SyntaxError, ValueError)] of [optimize_code]. *)
Definition caught (e : exn) : bool :=
  match e with
  | SyntaxError | ValueError => true
  | _ => false
  end.

Inductive result (A : Type) : Type :=
| Ok (a : A)
| Raise (e : exn).

Arguments Ok {A} a.
Arguments Raise {A} e.

Definition bind {A B : Type} (m : result A) (k : A -> result B) : result B :=
  match m with
  | Ok a => k a
  | Raise e => Raise e
  end.

Notation "x <- m ;; k" := (bind m (fun x => k))
  (at level 61, m at next level, right associativity).

(** ** Python values found in a syntax tree *)

Inductive value : Type :=
| None_
| Ellipsis_
| Bool (b : bool)
| Int (z : Z)
| Float (bits : Z)               (* a float, by its IEEE-754 bit pattern *)
| Complex (re im : Z)            (* a complex, by the bit patterns of its parts *)
| Str (s : string)
| Bytes (b : list Z)
| List (l : list value)          (* a Python list *)
| AST (cls : string) (fields : list (string * value)).
                                 (* an instance of the class [ast.cls] *)

(** Induction over values that reaches the elements of a list and the
    attributes of a node. *)
Section ValueInd.
Variable P : value -> Prop.
Hypothesis HNone : P None_.
Hypothesis HEllipsis : P Ellipsis_.
Hypothesis HBool : forall b, P (Bool b).
Hypothesis HInt : forall z, P (Int z).
Hypothesis HFloat : forall z, P (Float z).
Hypothesis HComplex : forall re im, P (Complex re im).
Hypothesis HStr : forall s, P (Str s).
Hypothesis HBytes : forall b, P (Bytes b).
Hypothesis HList : forall l, Forall P l -> P (List l).
Hypothesis HAST : forall cls fields,
    Forall (fun kv => P (snd kv)) fields -> P (AST cls fields).

Fixpoint value_nested_ind (v : value) : P v :=
  match v with
  | None_ => HNone
  | Ellipsis_ => HEllipsis
  | Bool b => HBool b
  | Int z => HInt z
  | Float z => HFloat z
  | Complex re im => HComplex re im
  | Str s => HStr s
  | Bytes b => HBytes b
  | List l =>
      HList ((fix go (l : list value) : Forall P l :=
                match l with
                | [] => Forall_nil P
                | x :: r => Forall_cons x (value_nested_ind x) (go r)
                end) l)
  | AST cls fields =>
      HAST cls ((fix go (fs : list (string * value))
                   : Forall (fun kv => P (snd kv)) fs :=
                   match fs with
                   | [] => Forall_nil _
                   | kv :: r =>
                       Forall_cons kv (value_nested_ind (snd kv)) (go r)
                   end) fields)
  end.
End ValueInd.

(** ** Attribute access and the run-time tests of the transformer *)

(** The attributes a node carries, looked up by name. *)
Fixpoint lookup (name : string) (fields : list (string * value)) : option value :=
  match fields with
  | [] => None
  | (k, v) :: rest => if String.eqb k name then Some v else lookup name rest
  end.

(** [obj.name]: defined on nodes that carry the attribute; every other read
    raises [AttributeError]. *)
Definition getattr (obj : value) (name : string) : result value :=
  match obj with
  | AST _ fields =>
      match lookup name fields with
      | Some v => Ok v
      | None => Raise AttributeError
      end
  | _ => Raise AttributeError
  end.

(** Rebinding an attribute that is present. *)
Fixpoint update (name : string) (v : value) (fields : list (string * value))
  : list (string * value) :=
  match fields with
  | [] => []
  | (k, old) :: rest =>
      if String.eqb k name then (k, v) :: rest
      else (k, old) :: update name v rest
  end.

(** The object [obj] after the attribute [name], which it carries, is bound
    to [v]. *)
Definition setattr (obj : value) (name : string) (v : value) : value :=
  match obj with
  | AST cls fields => AST cls (update name v fields)
  | _ => obj
  end.

(** [isinstance(obj, ast.cls)]. *)
Definition isinstance (obj : value) (cls : string) : bool :=
  match obj with
  | AST c _ => String.eqb c cls
  | _ => false
  end.

(** [isinstance(obj, ast.AST)]. *)
Definition is_AST (obj : value) : bool :=
  match obj with
  | AST _ _ => true
  | _ => false
  end.

(** [obj == "s"] for a string literal [s]: true on that very string only. *)
Definition eq_str (obj : value) (s : string) : bool :=
  match obj with
  | Str s' => String.eqb s' s
  | _ => false
  end.

(** [len(obj)]: lists, strings and bytes have a length, the rest raises
    [TypeError]. *)
Definition len (obj : value) : result nat :=
  match obj with
  | List l => Ok (length l)
  | Str s => Ok (String.length s)
  | Bytes b => Ok (length b)
  | _ => Raise TypeError
  end.

(** [obj[0]], read only after [len(obj) == 1]. *)
Definition item0 (obj : value) : result value :=
  match obj with
  | List (x :: _) => Ok x
  | Str (String c s) => Ok (Str (String c EmptyString))
  | Bytes (x :: _) => Ok (Int x)
  | _ => Raise TypeError
  end.

(** [obj.append(x)]: lists only. *)
Definition append (obj x : value) : result value :=
  match obj with
  | List l => Ok (List (l ++ [x]))
  | _ => Raise AttributeError
  end.

(** ** Node constructors, as the [ast] module builds them *)

Definition Load : value := AST "Load" [].
Definition Store : value := AST "Store" [].

Definition Name (id : string) (ctx : value) : value :=
  AST "Name" [("id", Str id); ("ctx", ctx)].

(** [kind] is optional and reads as [None] when it is not given. *)
Definition Constant (v : value) : value :=
  AST "Constant" [("value", v); ("kind", None_)].

Definition Attribute (v : value) (attr : string) (ctx : value) : value :=
  AST "Attribute" [("value", v); ("attr", Str attr); ("ctx", ctx)].

Definition Tuple (elts : list value) (ctx : value) : value :=
  AST "Tuple" [("elts", List elts); ("ctx", ctx)].

Definition keyword (arg : string) (v : value) : value :=
  AST "keyword" [("arg", Str arg); ("value", v)].

Definition Call (func : value) (args keywords : list value) : value :=
  AST "Call" [("func", func); ("args", List args); ("keywords", List keywords)].

Definition Expr (v : value) : value :=
  AST "Expr" [("value", v)].

Definition comprehension (target iter : value) (ifs : list value) : value :=
  AST "comprehension" [("target", target); ("iter", iter); ("ifs", List ifs);
                       ("is_async", Int 0)].

Definition ListComp (elt : value) (generators : list value) : value :=
  AST "ListComp" [("elt", elt); ("generators", List generators)].

Definition Return (v : value) : value :=
  AST "Return" [("value", v)].

Definition For (target iter : value) (body orelse : list value) : value :=
  AST "For" [("target", target); ("iter", iter); ("body", List body);
             ("orelse", List orelse); ("type_comment", None_)].

Definition arg (name : string) : value :=
  AST "arg" [("arg", Str name); ("annotation", None_); ("type_comment", None_)].

Definition arguments (args : list value) : value :=
  AST "arguments" [("posonlyargs", List []); ("args", List args);
                   ("vararg", None_); ("kwonlyargs", List []);
                   ("kw_defaults", List []); ("kwarg", None_);
                   ("defaults", List [])].

Definition FunctionDef (name : string) (args : value) (body : list value)
           (decorator_list : list value) : value :=
  AST "FunctionDef" [("name", Str name); ("args", args); ("body", List body);
                     ("decorator_list", List decorator_list);
                     ("returns", None_); ("type_comment", None_)].

Definition Module (body : list value) : value :=
  AST "Module" [("body", List body); ("type_ignores", List [])].

(** ** The transformer *)

(** What a visitor method returns: a node, or a list of nodes to be spliced
    in place of the visited one.  No method of [CodeOptimizer] returns
    [None], so the branches of [generic_visit] that drop a node are never
    taken and are left out. *)
Inductive visited : Type :=
| Node (n : value)
| Nodes (l : list value).

(** The statement [print("Hello")] that [visit_For] builds. *)
Definition print_hello : value :=
  Expr (Call (Name "print" Load) [Constant (Str "Hello")] []).

(** [CodeOptimizer.visit_For]. *)
Definition visit_For (node : value) : result visited :=
  target <- getattr node "target" ;;
  if negb (isinstance target "Name") then Ok (Node node) else
  iter <- getattr node "iter" ;;
  if negb (isinstance iter "Call") then Ok (Node node) else
  func <- getattr iter "func" ;;
  if negb (isinstance func "Name") then Ok (Node node) else
  id <- getattr func "id" ;;
  if negb (eq_str id "range") then Ok (Node node) else
  body <- getattr node "body" ;;
  n <- len body ;;
  if negb (Nat.eqb n 1) then Ok (Node node) else
  stmt <- item0 body ;;
  if negb (isinstance stmt "Expr") then Ok (Node node) else
  v <- getattr stmt "value" ;;
  if isinstance v "Call" then
    callee <- getattr v "func" ;;
    call_func <- getattr callee "id" ;;
    if eq_str call_func "print" then Ok (Nodes [print_hello])
    else Ok (Node node)
  else Ok (Node node).

(** [CodeOptimizer.visit_Call]. *)
Definition visit_Call (node : value) : result visited :=
  func <- getattr node "func" ;;
  if negb (isinstance func "Name") then Ok (Node node) else
  id <- getattr func "id" ;;
  if negb (eq_str id "list") then Ok (Node node) else
  args <- getattr node "args" ;;
  n <- len args ;;
  if negb (Nat.eqb n 1) then Ok (Node node) else
  a0 <- item0 args ;;
  if negb (isinstance a0 "Call") then Ok (Node node) else
  func0 <- getattr a0 "func" ;;
  if negb (isinstance func0 "Name") then Ok (Node node) else
  id0 <- getattr func0 "id" ;;
  if eq_str id0 "set" then Ok (Node a0) else Ok (Node node).

(** The decorator [visit_FunctionDef] appends. *)
Definition decorator : value := Name "lru_cache" Load.

(** [CodeOptimizer.visit_FunctionDef].  The list held by [decorator_list] is
    extended in place; the node keeps every other attribute. *)
Definition visit_FunctionDef (node : value) : result visited :=
  name <- getattr node "name" ;;
  if eq_str name "fib" then
    decorator_list <- getattr node "decorator_list" ;;
    extended <- append decorator_list decorator ;;
    Ok (Node (setattr node "decorator_list" extended))
  else Ok (Node node).

(** [ast.NodeTransformer.generic_visit], over a visitor [visit]. *)
Section GenericVisit.
Variable visit : value -> result visited.

(** The loop over a list attribute: nodes are visited, a returned list is
    spliced in, everything else is kept. *)
Fixpoint visit_values (old_value : list value) : result (list value) :=
  match old_value with
  | [] => Ok []
  | v :: rest =>
      if is_AST v then
        match visit v with
        | Raise e => Raise e
        | Ok (Node n) =>
            new_values <- visit_values rest ;; Ok (n :: new_values)
        | Ok (Nodes l) =>
            new_values <- visit_values rest ;; Ok (l ++ new_values)
        end
      else
        new_values <- visit_values rest ;; Ok (v :: new_values)
  end.

(** One attribute: a list is rebuilt, a node is replaced by what its visit
    returns, any other value is left alone. *)
Definition visit_field (old_value : value) : result value :=
  match old_value with
  | List l => new_values <- visit_values l ;; Ok (List new_values)
  | AST _ _ =>
      match visit old_value with
      | Raise e => Raise e
      | Ok (Node n) => Ok n
      | Ok (Nodes l) => Ok (List l)
      end
  | _ => Ok old_value
  end.

(** The loop over [iter_fields(node)], in the order of the fields. *)
Fixpoint visit_fields (fields : list (string * value))
  : result (list (string * value)) :=
  match fields with
  | [] => Ok []
  | (field, old_value) :: rest =>
      match visit_field old_value with
      | Raise e => Raise e
      | Ok new_value =>
          rest' <- visit_fields rest ;; Ok ((field, new_value) :: rest')
      end
  end.

(** [generic_visit(node)]: every attribute of the node is visited in turn
    and the node, updated in place, is returned.  On a value that is no node
    the read of [_fields] raises. *)
Definition generic_visit (node : value) : result visited :=
  match node with
  | AST cls fields =>
      fields' <- visit_fields fields ;; Ok (Node (AST cls fields'))
  | _ => Raise AttributeError
  end.

(** [CodeOptimizer.visit_ListComp]: [self.generic_visit(node)], then
    [return node]. *)
Definition visit_ListComp (node : value) : result visited :=
  node' <- generic_visit node ;; Ok node'.

(** [ast.NodeVisitor.visit_Constant], which every visitor inherits (Python
    3.11): it reads [node.value], looks on the visitor for the method
    [visit_Num], [visit_Str], [visit_Bytes], [visit_NameConstant] or
    [visit_Ellipsis] that the type of the value names, of which
    [CodeOptimizer] has none, and calls [generic_visit]. *)
Definition visit_Constant (node : value) : result visited :=
  constant <- getattr node "value" ;; generic_visit node.
End GenericVisit.

(** [ast.NodeVisitor.visit]: dispatch on the class name to the method
    [visit_<cls>] when [CodeOptimizer] has or inherits one, to
    [generic_visit] otherwise.  The recursion follows the tree; the limit the
    interpreter puts on the depth of calls is not part of the embedding. *)
Fixpoint visit (node : value) : result visited :=
  match node with
  | AST cls _ =>
      if String.eqb cls "For" then visit_For node
      else if String.eqb cls "ListComp" then visit_ListComp visit node
      else if String.eqb cls "Call" then visit_Call node
      else if String.eqb cls "FunctionDef" then visit_FunctionDef node
      else if String.eqb cls "Constant" then visit_Constant visit node
      else generic_visit visit node
  | _ => generic_visit visit node
  end.

(** What [optimizer.visit(tree)] hands back to its caller, as a Python
    value. *)
Definition to_value (r : visited) : value :=
  match r with
  | Node n => n
  | Nodes l => List l
  end.

(** One run of the pass: [CodeOptimizer().visit(tree)]. *)
Definition rewrite (tree : value) : result value :=
  r <- visit tree ;; Ok (to_value r).

(** The pass reaches a declaration named [fib] in [node]: the traversal
    stops at [For], [Call] and [FunctionDef] nodes and enters every other
    node. *)
Fixpoint reaches_fib (node : value) : bool :=
  match node with
  | AST cls fields =>
      if String.eqb cls "For" then false
      else if String.eqb cls "Call" then false
      else if String.eqb cls "FunctionDef" then
        match lookup "name" fields with
        | Some name => eq_str name "fib"
        | None => false
        end
      else
        existsb (fun kv =>
                   let child := snd kv in
                   match child with
                   | List l => existsb reaches_fib l
                   | AST _ _ => reaches_fib child
                   | _ => false
                   end) fields
  | _ => false
  end.

(** A visit result on which a further visit changes nothing. *)
Definition stable (r : visited) : Prop :=
  match r with
  | Node n => is_AST n = true /\ visit n = Ok (Node n)
  | Nodes l => l = [print_hello]
  end.

(** What the traversal may find in an attribute. *)
Definition field_reaches_fib (v : value) : bool :=
  match v with
  | List l => existsb reaches_fib l
  | AST _ _ => reaches_fib v
  | _ => false
  end.

Definition node_stable (v : value) : Prop :=
  reaches_fib v = false -> forall r, visit v = Ok r -> stable r.

Definition field_stable (v : value) : Prop :=
  field_reaches_fib v = false ->
  forall v', visit_field visit v = Ok v' -> visit_field visit v' = Ok v'.

(** ** [optimize_code] *)

(** The lines [optimize_code] prints. *)
Inductive message : Type :=
| Applied (file_path : string)
| Failed (file_path : string) (e : exn).

(** How a write can go wrong: [open(file_path, "w")] raises and the file is
    as it was; or the file is opened, which empties it, and [file.write]
    raises when [written] characters of the text have reached the file. *)
Inductive write_failure : Type :=
| OpenFails (e : exn)
| WriteFails (written : nat) (e : exn).

(** What the operating system refuses, on a given disk: the exception that
    opening and reading a path raises (a file that may not be opened, bytes
    that do not decode), and the failure of writing a text to a path. *)
Record faults : Type := mkFaults {
  read_fault : (string -> option string) -> string -> option exn;
  write_fault :
    (string -> option string) -> string -> string -> option write_failure
}.

Definition no_faults : faults :=
  mkFaults (fun _ _ => None) (fun _ _ _ => None).

(** The files on disk, what has been printed so far, and what the operating
    system refuses. *)
Record world : Type := World {
  files : string -> option string;
  stdout : list message;
  refused : faults
}.

(** A world in which reading and writing never fail. *)
Definition mkWorld (files_ : string -> option string)
           (stdout_ : list message) : world :=
  World files_ stdout_ no_faults.

(** [open(file_path, "r")] then [file.read()]: an exception of the operating
    system or of the decoder, [OSError] for a path that is not there, the
    text otherwise. *)
Definition read (file_path : string) (w : world) : result string :=
  match read_fault (refused w) (files w) file_path with
  | Some e => Raise e
  | None =>
      match files w file_path with
      | Some source_code => Ok source_code
      | None => Raise OSError
      end
  end.

(** The disk once [file_path] holds [text]. *)
Definition put (file_path text : string) (w : world) : world :=
  {| files := fun p => if String.eqb p file_path then Some text else files w p;
     stdout := stdout w;
     refused := refused w |}.

(** [open(file_path, "w")] then [file.write(text)]: the world the two calls
    leave and whether they raised.  Opening empties the file, so a write
    that fails leaves the characters written so far and nothing else. *)
Definition write (file_path text : string) (w : world)
  : world * result unit :=
  match write_fault (refused w) (files w) file_path text with
  | None => (put file_path text w, Ok tt)
  | Some (OpenFails e) => (w, Raise e)
  | Some (WriteFails written e) =>
      (put file_path (substring 0 written text) w, Raise e)
  end.

Definition print (m : message) (w : world) : world :=
  {| files := files w; stdout := stdout w ++ [m]; refused := refused w |}.

Section OptimizeCode.
(** The collaborators from the standard library: [ast.parse], and
    [ast.fix_missing_locations] followed by [ast.unparse]. *)
Variable parse : string -> result value.
Variable unparse : value -> result string.

(** The statements of the [try] block up to the second [open]. *)
Definition optimized_code (file_path : string) (w : world) : result string :=
  source_code <- read file_path w ;;
  tree <- parse source_code ;;
  optimized_tree <- rewrite tree ;;
  unparse optimized_tree.

(** The [except (SyntaxError, ValueError)] clause, and what happens to any
    other exception. *)
Definition handler (file_path : string) (e : exn) (w : world)
  : world * result unit :=
  if caught e then (print (Failed file_path e) w, Ok tt)
  else (w, Raise e).

(** [optimize_code(file_path)]: the world it leaves, and whether it returns
    or lets an exception through.  The write is inside the [try]. *)
Definition optimize_code (file_path : string) (w : world)
  : world * result unit :=
  match optimized_code file_path w with
  | Ok text =>
      match write file_path text w with
      | (w', Ok _) => (print (Applied file_path) w', Ok tt)
      | (w', Raise e) => handler file_path e w'
      end
  | Raise e => handler file_path e w
  end.
End OptimizeCode.

(** ** Sample programs *)

Module Samples.
Definition i : value := Name "i" Load.
Definition k : value := Name "k" Load.
Definition n : value := Name "n" Load.
Definition values : value := Name "values" Load.
Definition range3 : value := Call (Name "range" Load) [Constant (Int 3)] [].

(** [for i in range(3): print(i)] *)
Definition loop_fields : list (string * value) :=
  [("target", Name "i" Store); ("iter", range3);
   ("body", List [Expr (Call (Name "print" Load) [i] [])]);
   ("orelse", List []); ("type_comment", None_)].
Definition loop : value := AST "For" loop_fields.

(** [for i in range(3): print(i)] with [else: k] *)
Definition loop_else : value :=
  For (Name "i" Store) range3 [Expr (Call (Name "print" Load) [i] [])]
      [Expr k].

(** [for i in range(3): obj.m(i)] *)
Definition loop_method : value :=
  For (Name "i" Store) range3
      [Expr (Call (Attribute (Name "obj" Load) "m" Load) [i] [])] [].

(** [set(values)], [list(set(values))] and [list(set(values), key=k)] *)
Definition set_fields : list (string * value) :=
  [("func", Name "set" Load); ("args", List [values]); ("keywords", List [])].
Definition set_values : value := AST "Call" set_fields.
Definition list_set_fields : list (string * value) :=
  [("func", Name "list" Load); ("args", List [set_values]);
   ("keywords", List [])].
Definition list_set : value := AST "Call" list_set_fields.
Definition list_set_key_fields : list (string * value) :=
  [("func", Name "list" Load); ("args", List [set_values]);
   ("keywords", List [keyword "key" k])].
Definition list_set_key : value := AST "Call" list_set_key_fields.

(** [print(list(set(values)))] *)
Definition print_list_set : value :=
  Expr (Call (Name "print" Load) [list_set] []).

(** [def fib(n): return n] under the given decorators *)
Definition fib_fields (decorator_list : list value)
  : list (string * value) :=
  [("name", Str "fib"); ("args", arguments [arg "n"]);
   ("body", List [Return n]); ("decorator_list", List decorator_list);
   ("returns", None_); ("type_comment", None_)].
Definition fib (decorator_list : list value) : value :=
  AST "FunctionDef" (fib_fields decorator_list).

(** [def g(): for i in range(3): print(i)] *)
Definition g : value := FunctionDef "g" (arguments []) [loop] [].

(** [for i in range(3): print(list(set(values)))] with a body of two
    statements, which the range-loop rule leaves alone *)
Definition loop_two : value :=
  For (Name "i" Store) range3 [print_list_set; print_list_set] [].

(** [[list(set(values)) for i in k]] and [[set(values) for i in k]] *)
Definition comp (elt : value) : value :=
  Expr (ListComp elt [comprehension (Name "i" Store) k []]).

(** A [For] node built without its [iter], over the target [(i, k)] and
    over the target [i]. *)
Definition no_iter_fields (target : value) : list (string * value) :=
  [("target", target); ("body", List [Expr (Call (Name "print" Load) [i] [])]);
   ("orelse", List []); ("type_comment", None_)].
Definition no_iter_tuple : value :=
  AST "For" (no_iter_fields (Tuple [Name "i" Store; Name "k" Store] Store)).
Definition no_iter_name : value :=
  AST "For" (no_iter_fields (Name "i" Store)).

(** A disk on which every write fails with [OSError] when five characters
    have been written, and a disk on which no file decodes. *)
Definition disk_full : faults :=
  mkFaults (fun _ _ => None) (fun _ _ _ => Some (WriteFails 5 OSError)).
End Samples.

(** ** Vocabulary for the properties of the traversal *)

(** The classes whose nodes [generic_visit] enters: every class but the
    three whose method returns without visiting the children. *)
Definition entered (cls : string) : bool :=
  negb (String.eqb cls "For") && negb (String.eqb cls "Call")
  && negb (String.eqb cls "FunctionDef").

(** Some node the traversal calls [visit] on satisfies [p]. *)
Fixpoint reaches (p : value -> bool) (node : value) : bool :=
  match node with
  | AST cls fields =>
      p node ||
      (entered cls &&
       existsb (fun kv =>
                  let child := snd kv in
                  match child with
                  | List l => existsb (reaches p) l
                  | AST _ _ => reaches p child
                  | _ => false
                  end) fields)
  | _ => false
  end.

Definition field_reaches (p : value -> bool) (v : value) : bool :=
  match v with
  | List l => existsb (reaches p) l
  | AST _ _ => reaches p v
  | _ => false
  end.

(** [n] runs of the pass, each on the tree the run before returned. *)
Fixpoint passes (n : nat) (tree : value) : result value :=
  match n with
  | O => Ok tree
  | S n' => once <- rewrite tree ;; passes n' once
  end.








Definition range_call (iter : value) : bool :=
  isinstance iter "Call" &&
  match getattr iter "func" with
  | Ok func =>
      isinstance func "Name" &&
      match getattr func "id" with
      | Ok id => eq_str id "range"
      | Raise _ => false
      end
  | Raise _ => false
  end.


(** The patterns of the three rules, as the methods test them. *)
Definition callee_print (stmt : value) : bool :=
  isinstance stmt "Expr" &&
  match getattr stmt "value" with
  | Ok v =>
      isinstance v "Call" &&
      match getattr v "func" with
      | Ok callee =>
          match getattr callee "id" with
          | Ok id => eq_str id "print"
          | Raise _ => false
          end
      | Raise _ => false
      end
  | Raise _ => false
  end.

Definition range_print_loop (node : value) : bool :=
  isinstance node "For" &&
  match getattr node "target", getattr node "iter", getattr node "body" with
  | Ok target, Ok iter, Ok (List [stmt]) =>
      isinstance target "Name" && range_call iter && callee_print stmt
  | _, _, _ => false
  end.

Definition call_to (name : string) (node : value) : bool :=
  isinstance node "Call" &&
  match getattr node "func" with
  | Ok func =>
      isinstance func "Name" &&
      match getattr func "id" with
      | Ok id => eq_str id name
      | Raise _ => false
      end
  | Raise _ => false
  end.

Definition list_of_set (node : value) : bool :=
  call_to "list" node &&
  match getattr node "args" with
  | Ok (List [a0]) => call_to "set" a0
  | _ => false
  end.

Definition fib_declaration (node : value) : bool :=
  isinstance node "FunctionDef" &&
  match getattr node "name" with
  | Ok name => eq_str name "fib"
  | Raise _ => false
  end.

Definition rule_matches (node : value) : bool :=
  range_print_loop node || list_of_set node || fib_declaration node.

(** The statements proved by induction over the tree. *)
Definition node_unchanged (v : value) : Prop :=
  reaches rule_matches v = false ->
  forall r, visit v = Ok r -> r = Node v.

Definition values_unchanged (l : list value) : Prop :=
  existsb (reaches rule_matches) l = false ->
  forall l', visit_values visit l = Ok l' -> l' = l.




(** ** The driver: tools, files and the command line *)

(** [ERROR_TOOLS] and [FORMAT_TOOLS], in the order of the dictionaries. *)
Definition ERROR_TOOLS : list (string * string) :=
  [("pylint", "pylint {file_path} --output-format=text");
   ("ruff", "ruff check {file_path}");
   ("vulture", "vulture {file_path}")].

Definition FORMAT_TOOLS : list (string * string) :=
  [("black", "black {file_path}");
   ("autopep8", "autopep8 --in-place {file_path}");
   ("isort", "isort {file_path}")].

(** [command.format(file_path=file_path)] on a template whose only
    replacement field is [{file_path}]: the field is replaced by the path as
    it is, the rest is copied.  [skip] counts the characters of a field still
    to be passed over. *)
Fixpoint format_from (skip : nat) (template file_path : string) : string :=
  match template with
  | EmptyString => EmptyString
  | String c rest =>
      match skip with
      | S skip' => format_from skip' rest file_path
      | O =>
          if String.prefix "{file_path}" template
          then file_path ++ format_from 10 rest file_path
          else String c (format_from 0 rest file_path)
      end
  end.

Definition format (template file_path : string) : string :=
  format_from 0 template file_path.

(** [s.startswith(prefix)] and [s.endswith(suffix)]. *)
Definition startswith (s prefix : string) : bool := String.prefix prefix s.

Fixpoint endswith (s suffix : string) : bool :=
  String.eqb s suffix ||
  match s with
  | EmptyString => false
  | String _ rest => endswith rest suffix
  end.

(** The test of [scan_and_optimize] on a file name. *)
Definition selected (file : string) : bool :=
  (startswith file "simple" || startswith file "example")
  && endswith file ".py".

(** What the driver prints, line by line. *)
Inductive line : Type :=
| Processing (file_path : string)
| Checking (file_path : string)
| Formatting (file_path : string)
| Running (tool : string)
| Output (tool text : string)
| RunningFormatter (tool : string)
| FormatterOutput (tool text : string)
| Errors (tool text : string)
| Optimizer (m : message)
| Usage
| Scanning (directory : string)
| ProcessingSingle (file_path : string)
| InvalidPath (target_path : string)
| AllOptimized.

(** The disk, the console, the commands handed to the shell so far, and what
    the operating system refuses. *)
Record system : Type := System {
  disk : string -> option string;
  console : list line;
  commands : list string;
  denied : faults
}.

(** A system in which reading and writing never fail. *)
Definition mkSystem (disk_ : string -> option string) (console_ : list line)
           (commands_ : list string) : system :=
  System disk_ console_ commands_ no_faults.

Definition say (l : line) (s : system) : system :=
  {| disk := disk s; console := console s ++ [l]; commands := commands s;
     denied := denied s |}.

(** How a run of the program ends. *)
Inductive ending : Type :=
| Returned
| Exited (code : nat)
| Uncaught (e : exn).

Section Driver.
(** [subprocess.run(command, shell=True, capture_output=True, text=True)]:
    what the command does to the disk, and the captured output and error
    text, or the exception of a call that fails.  The tools are not part of
    the program: every property holds whatever they do. *)
Variable subprocess_run :
  string -> (string -> option string) ->
  (string -> option string) * result (string * string).
(** [str(e)]. *)
Variable str : exn -> string.
Variable parse : string -> result value.
Variable unparse : value -> result string.
(** The triples [(root, dirs, files)] that [os.walk(directory)] yields, and
    [os.path.join], [os.path.isdir], [os.path.isfile]. *)
Variable os_walk : string -> list (string * list string * list string).
Variable join : string -> string -> string.
Variable isdir : string -> bool.
Variable isfile : string -> bool.

(** [run_command(command)]: the pair [(stdout, stderr)], with [None] for
    [stdout] when the call raised. *)
Definition run_command (command : string) (s : system)
  : system * (option string * string) :=
  let (disk', outcome) := subprocess_run command (disk s) in
  let s' := {| disk := disk'; console := console s;
               commands := commands s ++ [command]; denied := denied s |} in
  match outcome with
  | Ok (out, err) => (s', (Some out, err))
  | Raise e => (s', (None, str e))
  end.

(** The truth value of [stdout] and [stderr] in [if stdout:]. *)
Definition truthy (text : option string) : bool :=
  match text with
  | Some (String _ _) => true
  | _ => false
  end.

(** The body of the loop over the tools, which [detect_errors] and
    [format_code] both have, each with its own wording of the first two
    lines. *)
Definition run_tool (running : string -> line)
           (output : string -> string -> line)
           (file_path : string) (tool_command : string * string)
           (s : system) : system :=
  let (tool, command) := tool_command in
  let s1 := say (running tool) s in
  let (s2, streams) := run_command (format command file_path) s1 in
  let (out, err) := streams in
  let s3 := match out with
            | Some (String c text) => say (output tool (String c text)) s2
            | _ => s2
            end in
  if truthy (Some err) then say (Errors tool err) s3 else s3.

(** [detect_errors(file_path)]. *)
Definition detect_errors (file_path : string) (s : system) : system :=
  fold_left (fun s' tool_command =>
               run_tool Running Output file_path tool_command s')
            ERROR_TOOLS (say (Checking file_path) s).

(** [format_code(file_path)]. *)
Definition format_code (file_path : string) (s : system) : system :=
  fold_left (fun s' tool_command =>
               run_tool RunningFormatter FormatterOutput
                        file_path tool_command s')
            FORMAT_TOOLS (say (Formatting file_path) s).

(** [optimize_code(file_path)] on the disk and the console of the system. *)
Definition optimize (file_path : string) (s : system) : system * result unit :=
  let (w, r) :=
    optimize_code parse unparse file_path (World (disk s) [] (denied s)) in
  ({| disk := files w; console := console s ++ map Optimizer (stdout w);
      commands := commands s; denied := denied s |}, r).

(** [process_python_file(file_path)]. *)
Definition process_python_file (file_path : string) (s : system)
  : system * result unit :=
  optimize file_path
           (format_code file_path
                        (detect_errors file_path
                                       (say (Processing file_path) s))).

(** The loop over the names of one directory. *)
Fixpoint scan_files (root : string) (files_ : list string) (s : system)
  : system * result unit :=
  match files_ with
  | [] => (s, Ok tt)
  | file :: rest =>
      if selected file then
        match process_python_file (join root file) s with
        | (s', Ok _) => scan_files root rest s'
        | (s', Raise e) => (s', Raise e)
        end
      else scan_files root rest s
  end.

(** The loop over the triples of [os.walk]. *)
Fixpoint scan_walk (walked : list (string * list string * list string))
         (s : system) : system * result unit :=
  match walked with
  | [] => (s, Ok tt)
  | (root, _, files_) :: rest =>
      match scan_files root files_ s with
      | (s', Ok _) => scan_walk rest s'
      | (s', Raise e) => (s', Raise e)
      end
  end.

(** [scan_and_optimize(directory)]. *)
Definition scan_and_optimize (directory : string) (s : system)
  : system * result unit :=
  scan_walk (os_walk directory) s.

(** The block under [if __name__ == "__main__":], on [sys.argv]. *)
Definition main (argv : list string) (s : system) : system * ending :=
  match argv with
  | [_; target_path] =>
      let (s', r) :=
        if isdir target_path then
          scan_and_optimize target_path (say (Scanning target_path) s)
        else if isfile target_path && endswith target_path ".py" then
          process_python_file target_path
                              (say (ProcessingSingle target_path) s)
        else (say (InvalidPath target_path) s, Ok tt) in
      match r with
      | Ok _ => (say AllOptimized s', Returned)
      | Raise e => (s', Uncaught e)
      end
  | _ => (say Usage s, Exited 1)
  end.

(** The paths [scan_and_optimize] works on, in the order it meets them. *)
Definition targets (walked : list (string * list string * list string))
  : list string :=
  flat_map (fun triple =>
              match triple with
              | (root, _, files_) => map (join root) (filter selected files_)
              end) walked.

(** [process_python_file] on each path in turn, up to the first that lets an
    exception through. *)
Fixpoint process_all (paths : list string) (s : system)
  : system * result unit :=
  match paths with
  | [] => (s, Ok tt)
  | file_path :: rest =>
      match process_python_file file_path s with
      | (s', Ok _) => process_all rest s'
      | (s', Raise e) => (s', Raise e)
      end
  end.

(** The six commands launched for one file. *)
Definition tool_commands (file_path : string) : list string :=
  map (fun tool_command => format (snd tool_command) file_path)
      (ERROR_TOOLS ++ FORMAT_TOOLS).
End Driver.

(** A run of the driver to try the properties on: tools that do nothing and
    print nothing, a parser that returns the tree of
    [for i in range(3): obj.m(i)] for every text, and a directory [dir]
    holding [simple.py], [notes.txt] and [example_two.py]. *)
Module Run.
Definition quiet (command : string) (d : string -> option string)
  : (string -> option string) * result (string * string) :=
  (d, Ok ("", "")).
Definition str (e : exn) : string := "".
Definition parse_method_loop (source_code : string) : result value :=
  Ok (Module [Samples.loop_method]).
Definition parse_pass (source_code : string) : result value :=
  Ok (Module [AST "Pass" []]).
Definition unparse (tree : value) : result string := Ok "pass".
Definition os_walk (directory : string)
  : list (string * list string * list string) :=
  [("dir", [], ["simple.py"; "notes.txt"; "example_two.py"])].
Definition join (root file : string) : string := root ++ "/" ++ file.
Definition start : system :=
  mkSystem (fun _ => Some "for i in range(3): obj.m(i)") [] [].
End Run.

(** * Properties *)

(** Taking apart a successful run of a visitor method. *)
Ltac unravel H :=
  repeat match type of H with
         | bind ?m _ = Ok _ =>
             let E := fresh "E" in
             destruct m eqn:E; simpl in H; [|discriminate H]
         | (if ?b then _ else _) = Ok _ =>
             let E := fresh "E" in destruct b eqn:E
         end.

(** ** Unfolding the traversal *)

Lemma bind_Ok (A B : Type) (m : result A) (k : A -> result B) (b : B) :
  bind m k = Ok b -> exists a, m = Ok a /\ k a = Ok b.
Proof.
  destruct m as [a|e]; simpl; intros H; [exists a; auto | discriminate].
Qed.

Lemma visit_values_app (l1 l2 : list value) :
  visit_values visit (l1 ++ l2) =
  (new1 <- visit_values visit l1 ;;
   new2 <- visit_values visit l2 ;; Ok (new1 ++ new2)).
Proof.
  induction l1 as [|v l1 IH]; simpl.
  - destruct (visit_values visit l2); reflexivity.
  - destruct (is_AST v).
    + destruct (visit v) as [[n|l]|e]; simpl; auto; rewrite IH;
        destruct (visit_values visit l1); simpl; auto;
        destruct (visit_values visit l2); simpl; auto.
      now rewrite app_assoc.
    + rewrite IH.
      destruct (visit_values visit l1); simpl; auto;
        destruct (visit_values visit l2); simpl; auto.
Qed.

Lemma visit_Module (body : list value) :
  visit (Module body) =
  (body' <- visit_values visit body ;; Ok (Node (Module body'))).
Proof.
  unfold Module; simpl.
  destruct (visit_values visit body); reflexivity.
Qed.

(** A statement list in which one statement is replaced by the statements
    its visit returns, the statements around it being visited as usual. *)
Lemma visit_values_splice (pre post pre' post' : list value)
      (stmt : value) (r : visited) :
  is_AST stmt = true ->
  visit_values visit pre = Ok pre' ->
  visit stmt = Ok r ->
  visit_values visit post = Ok post' ->
  visit_values visit (pre ++ stmt :: post) =
  Ok (pre' ++ match r with Node n => [n] | Nodes l => l end ++ post').
Proof.
  intros Hs Hpre Hstmt Hpost.
  rewrite visit_values_app, Hpre; simpl.
  rewrite Hs, Hstmt.
  destruct r; rewrite Hpost; reflexivity.
Qed.

(** ** The range-loop rule *)

(** The rule on a [For] node of the shape it looks for, whatever else the
    node carries. *)
Lemma visit_For_fires (fields tf itf rf ef cf pf : list (string * value)) :
  lookup "target" fields = Some (AST "Name" tf) ->
  lookup "iter" fields = Some (AST "Call" itf) ->
  lookup "func" itf = Some (AST "Name" rf) ->
  lookup "id" rf = Some (Str "range") ->
  lookup "body" fields = Some (List [AST "Expr" ef]) ->
  lookup "value" ef = Some (AST "Call" cf) ->
  lookup "func" cf = Some (AST "Name" pf) ->
  lookup "id" pf = Some (Str "print") ->
  visit (AST "For" fields) = Ok (Nodes [print_hello]).
Proof.
  intros Ht Hi Hf Hr Hb Hv Hc Hp.
  change (visit (AST "For" fields)) with (visit_For (AST "For" fields)).
  unfold visit_For; simpl.
  rewrite Ht; simpl. rewrite Hi; simpl. rewrite Hf; simpl.
  rewrite Hr; simpl. rewrite Hb; simpl. rewrite Hv; simpl.
  rewrite Hc; simpl. rewrite Hp; reflexivity.
Qed.

(** C5. A [For] loop whose target is a simple name, whose iterable is a call
    to the name [range] and whose body is one expression statement calling
    the name [print] is replaced by the single statement [print("Hello")]:
    an [Expr] whose value is a [Call] of the name [print], loaded, with one
    positional argument, the string constant ["Hello"], and no keyword.
    This holds whatever the arguments of [range] and of [print]: the visit
    of the loop returns that one statement, and in a module body it takes
    the place of the loop, between the rewritten statements before and after
    it. *)
Theorem range_loop_replaced_by_print_hello
        (fields tf itf rf ef cf pf : list (string * value))
        (pre post pre' post' : list value) :
  lookup "target" fields = Some (AST "Name" tf) ->
  lookup "iter" fields = Some (AST "Call" itf) ->
  lookup "func" itf = Some (AST "Name" rf) ->
  lookup "id" rf = Some (Str "range") ->
  lookup "body" fields = Some (List [AST "Expr" ef]) ->
  lookup "value" ef = Some (AST "Call" cf) ->
  lookup "func" cf = Some (AST "Name" pf) ->
  lookup "id" pf = Some (Str "print") ->
  visit_values visit pre = Ok pre' ->
  visit_values visit post = Ok post' ->
  visit (AST "For" fields) =
  Ok (Nodes
        [AST "Expr"
           [("value",
             AST "Call"
               [("func",
                 AST "Name" [("id", Str "print"); ("ctx", AST "Load" [])]);
                ("args",
                 List [AST "Constant"
                         [("value", Str "Hello"); ("kind", None_)]]);
                ("keywords", List [])])]]) /\
  rewrite (Module (pre ++ AST "For" fields :: post)) =
  Ok (AST "Module"
        [("body",
          List
            (pre' ++
             AST "Expr"
               [("value",
                 AST "Call"
                   [("func",
                     AST "Name" [("id", Str "print"); ("ctx", AST "Load" [])]);
                    ("args",
                     List [AST "Constant"
                             [("value", Str "Hello"); ("kind", None_)]]);
                    ("keywords", List [])])]
             :: post'));
         ("type_ignores", List [])]).
Proof.
  intros Ht Hi Hf Hr Hb Hv Hc Hp Hpre Hpost.
  assert (Hfor : visit (AST "For" fields) = Ok (Nodes [print_hello]))
    by (eapply visit_For_fires; eassumption).
  split; [exact Hfor|].
  unfold rewrite. rewrite visit_Module.
  rewrite (@visit_values_splice pre post pre' post' (AST "For" fields) _
             eq_refl Hpre Hfor Hpost).
  reflexivity.
Qed.

(** Scenario A: [for i in range(3): print(i)]. *)
Lemma range_loop_replaced_by_print_hello_witness :
  visit Samples.loop =
  Ok (Nodes
        [AST "Expr"
           [("value",
             AST "Call"
               [("func",
                 AST "Name" [("id", Str "print"); ("ctx", AST "Load" [])]);
                ("args",
                 List [AST "Constant"
                         [("value", Str "Hello"); ("kind", None_)]]);
                ("keywords", List [])])]]) /\
  rewrite (Module [Samples.loop]) =
  Ok (AST "Module"
        [("body",
          List
            [AST "Expr"
               [("value",
                 AST "Call"
                   [("func",
                     AST "Name" [("id", Str "print"); ("ctx", AST "Load" [])]);
                    ("args",
                     List [AST "Constant"
                             [("value", Str "Hello"); ("kind", None_)]]);
                    ("keywords", List [])])]]);
         ("type_ignores", List [])]).
Proof.
  apply (@range_loop_replaced_by_print_hello
           Samples.loop_fields
           [("id", Str "i"); ("ctx", Store)]
           [("func", Name "range" Load); ("args", List [Constant (Int 3)]);
            ("keywords", List [])]
           [("id", Str "range"); ("ctx", Load)]
           [("value", Call (Name "print" Load) [Samples.i] [])]
           [("func", Name "print" Load); ("args", List [Samples.i]);
            ("keywords", List [])]
           [("id", Str "print"); ("ctx", Load)]
           [] [] [] []); reflexivity.
Defined.

(** C10. The rule does not look at the loop's [else] clause: a matching loop
    that carries a non-empty [else] block is still replaced by the single
    statement [print("Hello")] (an [Expr] whose value is a [Call] of the
    name [print] with the one argument ["Hello"]), and the module that comes
    out holds that statement and nothing of the [else] block. *)
Theorem range_loop_else_discarded
        (id : string) (ctx rctx pctx : value)
        (rargs rkeywords pargs pkeywords orelse : list value) :
  orelse <> [] ->
  rewrite (Module [For (Name id ctx)
                       (Call (Name "range" rctx) rargs rkeywords)
                       [Expr (Call (Name "print" pctx) pargs pkeywords)]
                       orelse]) =
  Ok (AST "Module"
        [("body",
          List
            [AST "Expr"
               [("value",
                 AST "Call"
                   [("func",
                     AST "Name" [("id", Str "print"); ("ctx", AST "Load" [])]);
                    ("args",
                     List [AST "Constant"
                             [("value", Str "Hello"); ("kind", None_)]]);
                    ("keywords", List [])])]]);
         ("type_ignores", List [])]).
Proof.
  intros _.
  set (loop := For _ _ _ _).
  assert (H : visit loop = Ok (Nodes [print_hello]))
    by (eapply visit_For_fires; reflexivity).
  pose proof (@visit_values_splice [] [] [] [] loop _
                eq_refl eq_refl H eq_refl) as E.
  cbn [app] in E.
  unfold rewrite. rewrite visit_Module, E. reflexivity.
Qed.

Lemma range_loop_else_discarded_witness :
  [Expr Samples.k] <> [] /\
  rewrite (Module [Samples.loop_else]) =
  Ok (AST "Module"
        [("body",
          List
            [AST "Expr"
               [("value",
                 AST "Call"
                   [("func",
                     AST "Name" [("id", Str "print"); ("ctx", AST "Load" [])]);
                    ("args",
                     List [AST "Constant"
                             [("value", Str "Hello"); ("kind", None_)]]);
                    ("keywords", List [])])]]);
         ("type_ignores", List [])]).
Proof.
  split.
  - discriminate.
  - apply (@range_loop_else_discarded "i" Store Load Load
             [Constant (Int 3)] [] [Samples.i] [] [Expr Samples.k]).
    discriminate.
Defined.

(** ** The set-wrapping rule *)

(** The rule on a call [list(a)] whose one positional argument [a] is a call
    to the name [set]; the keywords of neither call are read. *)
Lemma visit_Call_fires (fields ff inner sf : list (string * value)) :
  lookup "func" fields = Some (AST "Name" ff) ->
  lookup "id" ff = Some (Str "list") ->
  lookup "args" fields = Some (List [AST "Call" inner]) ->
  lookup "func" inner = Some (AST "Name" sf) ->
  lookup "id" sf = Some (Str "set") ->
  visit (AST "Call" fields) = Ok (Node (AST "Call" inner)).
Proof.
  intros Hf Hl Ha Hs Hi.
  change (visit (AST "Call" fields)) with (visit_Call (AST "Call" fields)).
  unfold visit_Call; simpl.
  rewrite Hf; simpl. rewrite Hl; simpl. rewrite Ha; simpl.
  rewrite Hs; simpl. rewrite Hi; reflexivity.
Qed.

(** C6. A call to the name [list] with exactly one positional argument and
    no keyword argument, that argument being a call to the name [set], is
    rewritten to the inner [set(...)] call itself. *)
Theorem list_of_set_unwrapped (fields ff inner sf : list (string * value)) :
  lookup "func" fields = Some (AST "Name" ff) ->
  lookup "id" ff = Some (Str "list") ->
  lookup "args" fields = Some (List [AST "Call" inner]) ->
  lookup "keywords" fields = Some (List []) ->
  lookup "func" inner = Some (AST "Name" sf) ->
  lookup "id" sf = Some (Str "set") ->
  rewrite (AST "Call" fields) = Ok (AST "Call" inner).
Proof.
  intros Hf Hl Ha _ Hs Hi.
  unfold rewrite.
  now rewrite (visit_Call_fires _ Hf Hl Ha Hs Hi).
Qed.

(** Scenario B: [list(set(values))]. *)
Lemma list_of_set_unwrapped_witness :
  rewrite Samples.list_set = Ok Samples.set_values.
Proof.
  apply (@list_of_set_unwrapped
           Samples.list_set_fields [("id", Str "list"); ("ctx", Load)]
           Samples.set_fields [("id", Str "set"); ("ctx", Load)]);
    reflexivity.
Defined.

(** C3, as the code has it. The rule reads the positional arguments only: a
    call to the name [list] whose one positional argument is a call to the
    name [set] is rewritten to that inner call also when either call carries
    keyword arguments; the keywords of the outer call go with it, those of
    the inner call stay on it. *)
Theorem list_of_set_keywords_ignored
        (fields ff inner sf : list (string * value))
        (keywords keywords0 : list value) :
  lookup "func" fields = Some (AST "Name" ff) ->
  lookup "id" ff = Some (Str "list") ->
  lookup "args" fields = Some (List [AST "Call" inner]) ->
  lookup "keywords" fields = Some (List keywords) ->
  lookup "func" inner = Some (AST "Name" sf) ->
  lookup "id" sf = Some (Str "set") ->
  lookup "keywords" inner = Some (List keywords0) ->
  keywords <> [] \/ keywords0 <> [] ->
  rewrite (AST "Call" fields) = Ok (AST "Call" inner).
Proof.
  intros Hf Hl Ha _ Hs Hi _ _.
  unfold rewrite.
  now rewrite (visit_Call_fires _ Hf Hl Ha Hs Hi).
Qed.

(** Scenario C: [list(set(values), key=k)]. *)
Lemma list_of_set_keywords_ignored_witness :
  rewrite Samples.list_set_key = Ok Samples.set_values.
Proof.
  apply (@list_of_set_keywords_ignored
           Samples.list_set_key_fields [("id", Str "list"); ("ctx", Load)]
           Samples.set_fields [("id", Str "set"); ("ctx", Load)]
           [keyword "key" Samples.k] []);
    try reflexivity.
  left; discriminate.
Defined.

(** C3, as stated, fails on [list(set(values), key=k)]: the call is not left
    unchanged. *)
Lemma list_of_set_with_keyword_rewritten :
  rewrite Samples.list_set_key <> Ok Samples.list_set_key.
Proof.
  vm_compute. intros H. discriminate H.
Qed.

(** ** The memoization rule *)

Lemma lookup_update_same (name : string) (v old : value)
      (fields : list (string * value)) :
  lookup name fields = Some old ->
  lookup name (update name v fields) = Some v.
Proof.
  induction fields as [|[k w] rest IH]; simpl; [discriminate|].
  destruct (String.eqb k name) eqn:E; simpl; rewrite E; auto.
Qed.

Lemma lookup_update_other (name other : string) (v : value)
      (fields : list (string * value)) :
  other <> name ->
  lookup other (update name v fields) = lookup other fields.
Proof.
  intros Hne.
  induction fields as [|[k w] rest IH]; simpl; [reflexivity|].
  destruct (String.eqb k name) eqn:E; simpl.
  - apply String.eqb_eq in E; subst k.
    destruct (String.eqb name other) eqn:E'; [|reflexivity].
    apply String.eqb_eq in E'; congruence.
  - destruct (String.eqb k other); auto.
Qed.

Lemma update_names (name : string) (v : value)
      (fields : list (string * value)) :
  map fst (update name v fields) = map fst fields.
Proof.
  induction fields as [|[k w] rest IH]; simpl; [reflexivity|].
  destruct (String.eqb k name); simpl; congruence.
Qed.

(** C7. A function declaration named [fib] comes back as the same
    declaration with one more decorator, the name [lru_cache], at the end of
    its decorator list: the decorators it had keep their places before it,
    and every other attribute of the declaration (name, parameters, body and
    the rest) is the one it had; in particular the body is not rewritten. *)
Theorem fib_gets_lru_cache_appended
        (fields : list (string * value)) (decorator_list : list value) :
  lookup "name" fields = Some (Str "fib") ->
  lookup "decorator_list" fields = Some (List decorator_list) ->
  exists fields',
    rewrite (AST "FunctionDef" fields) = Ok (AST "FunctionDef" fields') /\
    lookup "decorator_list" fields' =
      Some (List (decorator_list ++ [Name "lru_cache" Load])) /\
    map fst fields' = map fst fields /\
    forall name, name <> "decorator_list" ->
                 lookup name fields' = lookup name fields.
Proof.
  intros Hn Hd.
  exists (update "decorator_list"
                 (List (decorator_list ++ [Name "lru_cache" Load])) fields).
  repeat split.
  - unfold rewrite.
    change (visit (AST "FunctionDef" fields))
      with (visit_FunctionDef (AST "FunctionDef" fields)).
    unfold visit_FunctionDef; simpl.
    rewrite Hn; simpl. rewrite Hd; reflexivity.
  - eapply lookup_update_same; eassumption.
  - apply update_names.
  - intros name Hne. now apply lookup_update_other.
Qed.

(** Scenario D, on a declaration of [fib] that has a decorator already. *)
Lemma fib_gets_lru_cache_appended_witness :
  exists fields',
    rewrite (Samples.fib [Samples.k]) = Ok (AST "FunctionDef" fields') /\
    lookup "decorator_list" fields' =
      Some (List ([Samples.k] ++ [Name "lru_cache" Load])) /\
    map fst fields' = map fst (Samples.fib_fields [Samples.k]) /\
    forall name, name <> "decorator_list" ->
                 lookup name fields' = lookup name (Samples.fib_fields [Samples.k]).
Proof.
  apply (@fib_gets_lru_cache_appended
           (Samples.fib_fields [Samples.k]) [Samples.k]); reflexivity.
Defined.

(** ** Running the pass again *)

Lemma visit_For_result (node : value) (r : visited) :
  visit_For node = Ok r -> r = Node node \/ r = Nodes [print_hello].
Proof.
  unfold visit_For. intros H.
  unravel H; inversion H; auto.
Qed.

Lemma eq_str_set_not_list (id : value) :
  eq_str id "set" = true -> eq_str id "list" = false.
Proof.
  destruct id; simpl; try discriminate.
  intros H. apply String.eqb_eq in H. now subst.
Qed.

Lemma visit_Call_result (node : value) (r : visited) :
  visit_Call node = Ok r ->
  r = Node node \/
  exists inner, r = Node inner /\ isinstance inner "Call" = true /\
                visit_Call inner = Ok (Node inner).
Proof.
  unfold visit_Call at 1. intros H.
  unravel H; inversion H; auto.
  right.
  match goal with
  | Hc : negb (isinstance ?a "Call") = false,
    Hf : getattr ?a "func" = Ok ?f,
    Hn : negb (isinstance ?f "Name") = false,
    Hi : getattr ?f "id" = Ok ?i,
    Hs : eq_str ?i "set" = true |- _ =>
      exists a; repeat split;
      [ now apply negb_false_iff in Hc
      | unfold visit_Call; rewrite Hf; simpl; rewrite Hn; simpl;
        rewrite Hi; simpl; now rewrite (eq_str_set_not_list _ Hs) ]
  end.
Qed.

Lemma visit_FunctionDef_result (fields : list (string * value)) (r : visited) :
  reaches_fib (AST "FunctionDef" fields) = false ->
  visit_FunctionDef (AST "FunctionDef" fields) = Ok r ->
  r = Node (AST "FunctionDef" fields).
Proof.
  unfold visit_FunctionDef; simpl. intros Hfib H.
  destruct (lookup "name" fields) as [name|]; simpl in H; [|discriminate].
  rewrite Hfib in H. now inversion H.
Qed.

Lemma visit_print_hello : visit print_hello = Ok (Node print_hello).
Proof. reflexivity. Qed.

Lemma visit_values_stable (l : list value) :
  Forall node_stable l ->
  existsb reaches_fib l = false ->
  forall l', visit_values visit l = Ok l' -> visit_values visit l' = Ok l'.
Proof.
  induction 1 as [|v rest Hv _ IH]; intros Hfib l' Hl'.
  - inversion Hl'. reflexivity.
  - simpl in Hfib. apply orb_false_iff in Hfib as [Hfv Hfrest].
    cbn [visit_values] in Hl'.
    destruct (is_AST v) eqn:Ev.
    + destruct (visit v) as [[n|l0]|e] eqn:Evis; try discriminate;
        apply bind_Ok in Hl' as (new & Hnew & Hl'); inversion Hl'; subst l';
        specialize (IH Hfrest _ Hnew);
        specialize (Hv Hfv _ Evis); simpl in Hv.
      * destruct Hv as [Hn Hvn].
        cbn [visit_values]. rewrite Hn, Hvn, IH. reflexivity.
      * subst l0. cbn [app visit_values].
        change (is_AST print_hello) with true. cbv iota.
        rewrite visit_print_hello, IH. reflexivity.
    + apply bind_Ok in Hl' as (new & Hnew & Hl'); inversion Hl'; subst l'.
      cbn [visit_values]. rewrite Ev, (IH Hfrest _ Hnew). reflexivity.
Qed.

Lemma visit_fields_stable (fields : list (string * value)) :
  Forall (fun kv => field_stable (snd kv)) fields ->
  existsb (fun kv => field_reaches_fib (snd kv)) fields = false ->
  forall fields', visit_fields visit fields = Ok fields' ->
                  visit_fields visit fields' = Ok fields'.
Proof.
  induction 1 as [|[k v] rest Hv _ IH]; intros Hfib fields' Hf.
  - inversion Hf. reflexivity.
  - simpl in Hfib. apply orb_false_iff in Hfib as [Hfv Hfrest].
    cbn [visit_fields] in Hf.
    destruct (visit_field visit v) as [v'|e] eqn:Ev; [|discriminate].
    apply bind_Ok in Hf as (rest' & Hrest & Hf); inversion Hf; subst fields'.
    cbn [visit_fields].
    rewrite (Hv Hfv _ Ev), (IH Hfrest _ Hrest). reflexivity.
Qed.

Lemma getattr_value (cls name : string) (fields : list (string * value))
      (v : value) :
  getattr (AST cls fields) name = Ok v -> lookup name fields = Some v.
Proof.
  simpl. destruct (lookup name fields); intros H; now inversion H.
Qed.

(** A node of a class without a rule is visited attribute by attribute; a
    [Constant] has its [value] read first. *)
Lemma visit_generic (cls : string) (fields : list (string * value)) :
  String.eqb cls "For" = false ->
  String.eqb cls "Call" = false ->
  String.eqb cls "FunctionDef" = false ->
  visit (AST cls fields) =
  (if String.eqb cls "Constant"
   then constant <- getattr (AST cls fields) "value" ;;
        fields' <- visit_fields visit fields ;; Ok (Node (AST cls fields'))
   else fields' <- visit_fields visit fields ;; Ok (Node (AST cls fields'))).
Proof.
  intros H1 H2 H3. cbn [visit]. rewrite H1, H2, H3.
  destruct (String.eqb cls "ListComp") eqn:EL.
  - apply String.eqb_eq in EL; subst cls.
    change (String.eqb "ListComp" "Constant") with false. cbv iota.
    unfold visit_ListComp, generic_visit.
    destruct (visit_fields visit fields); reflexivity.
  - destruct (String.eqb cls "Constant"); reflexivity.
Qed.

Lemma visit_generic_Ok (cls : string) (fields : list (string * value))
      (r : visited) :
  String.eqb cls "For" = false ->
  String.eqb cls "Call" = false ->
  String.eqb cls "FunctionDef" = false ->
  visit (AST cls fields) = Ok r ->
  exists fields',
    visit_fields visit fields = Ok fields' /\ r = Node (AST cls fields').
Proof.
  intros H1 H2 H3 H. rewrite visit_generic in H by assumption.
  destruct (String.eqb cls "Constant").
  - apply bind_Ok in H as (constant & _ & H).
    apply bind_Ok in H as (fields' & Hf & H). inversion H. eauto.
  - apply bind_Ok in H as (fields' & Hf & H). inversion H. eauto.
Qed.

Lemma visit_fields_names (fields fields' : list (string * value)) :
  visit_fields visit fields = Ok fields' ->
  map fst fields' = map fst fields.
Proof.
  revert fields'. induction fields as [|[k v] rest IH]; intros fields' H.
  - now inversion H.
  - cbn [visit_fields] in H.
    destruct (visit_field visit v) as [v'|]; [|discriminate].
    apply bind_Ok in H as (rest' & Hrest & H). inversion H. simpl.
    now rewrite (IH _ Hrest).
Qed.

Lemma lookup_present (name : string) (fields fields' : list (string * value))
      (v : value) :
  map fst fields' = map fst fields ->
  lookup name fields = Some v ->
  exists v', lookup name fields' = Some v'.
Proof.
  revert fields'. induction fields as [|[k w] rest IH];
    intros [|[k' w'] rest'] Hn Hl; try discriminate.
  simpl in Hn. inversion Hn; subst. simpl in *.
  destruct (String.eqb k name); eauto.
Qed.

(** A node that was visited attribute by attribute is visited in the same
    way when it comes back. *)
Lemma visit_generic_again (cls : string)
      (fields fields' : list (string * value)) (r : visited) :
  String.eqb cls "For" = false ->
  String.eqb cls "Call" = false ->
  String.eqb cls "FunctionDef" = false ->
  visit (AST cls fields) = Ok r ->
  visit_fields visit fields = Ok fields' ->
  visit_fields visit fields' = Ok fields' ->
  visit (AST cls fields') = Ok (Node (AST cls fields')).
Proof.
  intros H1 H2 H3 H Hf Hf'. rewrite visit_generic in * by assumption.
  destruct (String.eqb cls "Constant").
  - apply bind_Ok in H as (constant & Hc & _). apply getattr_value in Hc.
    destruct (@lookup_present "value" fields fields' constant
                (@visit_fields_names fields fields' Hf) Hc) as [v' Hv'].
    simpl. rewrite Hv'. simpl. rewrite Hf'. reflexivity.
  - rewrite Hf'. reflexivity.
Qed.

Lemma reaches_fib_generic (cls : string) (fields : list (string * value)) :
  String.eqb cls "For" = false ->
  String.eqb cls "Call" = false ->
  String.eqb cls "FunctionDef" = false ->
  reaches_fib (AST cls fields) =
  existsb (fun kv => field_reaches_fib (snd kv)) fields.
Proof.
  intros H1 H2 H3. cbn [reaches_fib]. rewrite H1, H2, H3. reflexivity.
Qed.

Lemma field_stable_of_node (cls : string) (fields : list (string * value)) :
  node_stable (AST cls fields) -> field_stable (AST cls fields).
Proof.
  intros Hn Hfib v' Hv. cbn [visit_field field_reaches_fib] in *.
  destruct (visit (AST cls fields)) as [[n|l]|e] eqn:Evis; try discriminate;
    inversion Hv; subst v'; specialize (Hn Hfib _ Evis); simpl in Hn.
  - destruct Hn as [Hast Hvn].
    destruct n; try discriminate Hast.
    cbn [visit_field]. rewrite Hvn. reflexivity.
  - subst l. reflexivity.
Qed.

(** Every value is stable, as a node and as an attribute. *)
Lemma visit_stable (v : value) : node_stable v /\ field_stable v.
Proof.
  induction v using value_nested_ind;
    try (split; [intros _ r Hr; discriminate Hr
                | intros _ v' Hv'; inversion Hv'; reflexivity]).
  - (* a list *)
    split; [intros _ r Hr; discriminate Hr|].
    intros Hfib v' Hv'. cbn [visit_field field_reaches_fib] in *.
    apply bind_Ok in Hv' as (l' & Hl' & Hv'). inversion Hv'; subst v'.
    cbn [visit_field].
    rewrite (@visit_values_stable l) with (l' := l'); auto.
    eapply Forall_impl; [|eassumption]. now intros a [Ha _].
  - (* a node *)
    assert (Hnode : node_stable (AST cls fields)).
    { intros Hfib r Hr.
      destruct (String.eqb cls "For") eqn:EFor.
      { apply String.eqb_eq in EFor; subst cls.
        change (visit (AST "For" fields))
          with (visit_For (AST "For" fields)) in Hr.
        destruct (visit_For_result _ Hr) as [-> | ->];
          [split; [reflexivity | exact Hr] | reflexivity]. }
      destruct (String.eqb cls "Call") eqn:ECall.
      { apply String.eqb_eq in ECall; subst cls.
        change (visit (AST "Call" fields))
          with (visit_Call (AST "Call" fields)) in Hr.
        destruct (visit_Call_result _ Hr)
          as [-> | (inner & -> & Hcls & Hinner)];
          [split; [reflexivity | exact Hr]|].
        destruct inner; try discriminate Hcls. simpl in Hcls.
        apply String.eqb_eq in Hcls; subst.
        split; [reflexivity | exact Hinner]. }
      destruct (String.eqb cls "FunctionDef") eqn:EDef.
      { apply String.eqb_eq in EDef; subst cls.
        change (visit (AST "FunctionDef" fields))
          with (visit_FunctionDef (AST "FunctionDef" fields)) in Hr.
        pose proof (visit_FunctionDef_result _ Hfib Hr) as ->.
        split; [reflexivity | exact Hr]. }
      pose proof Hr as Hvisit.
      apply visit_generic_Ok in Hr as (fields' & Hf & ->); try assumption.
      rewrite reaches_fib_generic in Hfib by assumption.
      split; [reflexivity|].
      apply (@visit_generic_again cls fields fields' _
               EFor ECall EDef Hvisit Hf).
      apply (@visit_fields_stable fields); auto.
      eapply Forall_impl; [|eassumption]. now intros a [_ Ha]. }
    split; [assumption | now apply field_stable_of_node].
Qed.

Lemma visit_Nodes_only_For (node : value) (l : list value) :
  visit node = Ok (Nodes l) -> isinstance node "For" = true.
Proof.
  destruct node as [| | | | | | | | |cls fields]; try discriminate.
  intros H. simpl.
  destruct (String.eqb cls "For") eqn:EFor; [reflexivity|exfalso].
  destruct (String.eqb cls "Call") eqn:ECall.
  { apply String.eqb_eq in ECall; subst cls.
    change (visit (AST "Call" fields))
      with (visit_Call (AST "Call" fields)) in H.
    destruct (visit_Call_result _ H) as [E | (inner & E & _)];
      discriminate E. }
  destruct (String.eqb cls "FunctionDef") eqn:EDef.
  { apply String.eqb_eq in EDef; subst cls.
    change (visit (AST "FunctionDef" fields))
      with (visit_FunctionDef (AST "FunctionDef" fields)) in H.
    unfold visit_FunctionDef in H. unravel H; discriminate H. }
  apply visit_generic_Ok in H as (fields' & _ & H); try assumption.
  discriminate H.
Qed.

(** C1, as the code has it. On a tree in which the traversal reaches no
    function declaration named [fib], a second run of the pass returns what
    the first run returned (and fails as the first run did if that one
    failed); the root is any node but a [For], a module for a parsed file. *)
Theorem rewrite_idempotent_without_fib (tree : value) :
  isinstance tree "For" = false ->
  reaches_fib tree = false ->
  (once <- rewrite tree ;; rewrite once) = rewrite tree.
Proof.
  intros Hroot Hfib. unfold rewrite at 1 3.
  destruct (visit tree) as [r|e] eqn:Evis; [|reflexivity].
  simpl. destruct (visit_stable tree) as [Hnode _].
  specialize (Hnode Hfib _ Evis).
  destruct r as [n|l]; simpl in *.
  - destruct Hnode as [_ Hn]. unfold rewrite. now rewrite Hn.
  - apply visit_Nodes_only_For in Evis. congruence.
Qed.

Lemma rewrite_idempotent_without_fib_witness :
  (once <- rewrite (Module [Samples.loop; Expr Samples.list_set]) ;;
   rewrite once) =
  rewrite (Module [Samples.loop; Expr Samples.list_set]).
Proof.
  apply (@rewrite_idempotent_without_fib
           (Module [Samples.loop; Expr Samples.list_set])); reflexivity.
Defined.

(** C1, as stated, fails on [def fib(n): return n]: the second run appends
    [lru_cache] again, also when the declaration already carries it. *)
Lemma rewrite_not_idempotent_on_fib :
  (once <- rewrite (Module [Samples.fib []]) ;; rewrite once)
    <> rewrite (Module [Samples.fib []]) /\
  rewrite (Module [Samples.fib [decorator]])
    <> Ok (Module [Samples.fib [decorator]]).
Proof.
  split; vm_compute; intros H; discriminate H.
Qed.

(** ** Nodes the traversal does not enter *)

(** C2, on the code. [visit_For], [visit_Call] and [visit_FunctionDef] return
    without calling [generic_visit], so nothing below a loop, a call or a
    function declaration is visited: [list(set(values))] as an argument of
    [print], a matching loop in the body of [def g()] and a
    [list(set(values))] in the body of a loop all come back as they were.
    The same patterns are rewritten where the traversal reaches them: as a
    statement of the module, and below a list comprehension, whose method
    does call [generic_visit]. *)
Theorem nested_patterns_not_rewritten :
  rewrite (Module [Samples.print_list_set]) =
    Ok (Module [Samples.print_list_set]) /\
  rewrite (Module [Samples.g]) = Ok (Module [Samples.g]) /\
  rewrite (Module [Samples.loop_two]) = Ok (Module [Samples.loop_two]) /\
  rewrite (Module [Expr Samples.list_set]) =
    Ok (Module [Expr Samples.set_values]) /\
  rewrite (Module [Samples.loop]) = Ok (Module [print_hello]) /\
  rewrite (Module [Samples.comp Samples.list_set]) =
    Ok (Module [Samples.comp Samples.set_values]).
Proof.
  repeat split; reflexivity.
Qed.

(** ** A callee that is not a name *)

(** C4, on the code. [visit_For] reads [.id] of the callee in the loop body
    without testing that the callee is a name: on
    [for i in range(3): obj.m(i)] the read raises [AttributeError], the
    rewrite of the module fails, and [optimize_code], whose handler takes
    [SyntaxError] and [ValueError] only, lets the exception through and
    leaves the file as it was. *)
Theorem range_loop_over_method_call_raises
        (unparse : value -> result string) (source_code : string) :
  visit Samples.loop_method = Raise AttributeError /\
  rewrite (Module [Samples.loop_method]) = Raise AttributeError /\
  optimize_code (fun _ => Ok (Module [Samples.loop_method])) unparse
                "example.py" (mkWorld (fun _ => Some source_code) []) =
  (mkWorld (fun _ => Some source_code) [], Raise AttributeError).
Proof.
  repeat split; reflexivity.
Qed.

(** ** Failures and the file *)

(** C8, as stated, fails when the write itself fails: the rewrite of
    [for i in range(3): print(i)] succeeds, the file is opened for writing,
    and on a disk that takes five characters before raising [OSError] the
    file is left holding [print], a part of the new text. *)
Lemma optimize_code_write_can_be_partial :
  (exists tree, rewrite (Module [Samples.loop]) = Ok tree) /\
  files (fst (optimize_code
                (fun _ => Ok (Module [Samples.loop]))
                (fun _ => Ok "print('Hello')") "example.py"
                (World (fun _ => Some "for i in range(3): print(i)") []
                       Samples.disk_full)))
        "example.py" = Some "print" /\
  snd (optimize_code
         (fun _ => Ok (Module [Samples.loop]))
         (fun _ => Ok "print('Hello')") "example.py"
         (World (fun _ => Some "for i in range(3): print(i)") []
                Samples.disk_full)) = Raise OSError.
Proof.
  split; [eexists; reflexivity|].
  split; vm_compute; reflexivity.
Qed.

(** C8, as the code has it. When the text does not parse, the [SyntaxError]
    or [ValueError] is reported by the [Failed to optimize] line, the call
    returns, and every file is as it was.  When reading, parsing, rewriting
    or unparsing fails, with whatever exception, no file changes; the
    exception is reported in the same way if it is one of those two and let
    through if not.  The file is opened for writing only when all of them
    have succeeded, and it is the whole new text that is written: no other
    file changes; if the write succeeds the file holds the whole text and
    the [applied] line is printed; if the file cannot be opened it is as it
    was; if the write fails once the file is open, the file holds the part
    of the text written so far. *)
Theorem optimize_code_writes_only_after_success
        (parse : string -> result value) (unparse : value -> result string)
        (file_path : string) (w : world) :
  (forall source_code e,
      read file_path w = Ok source_code ->
      parse source_code = Raise e ->
      e = SyntaxError \/ e = ValueError ->
      files (fst (optimize_code parse unparse file_path w)) = files w /\
      stdout (fst (optimize_code parse unparse file_path w)) =
        stdout w ++ [Failed file_path e] /\
      snd (optimize_code parse unparse file_path w) = Ok tt) /\
  (forall e,
      optimized_code parse unparse file_path w = Raise e ->
      files (fst (optimize_code parse unparse file_path w)) = files w /\
      stdout (fst (optimize_code parse unparse file_path w)) =
        (if caught e then stdout w ++ [Failed file_path e] else stdout w) /\
      snd (optimize_code parse unparse file_path w) =
        (if caught e then Ok tt else Raise e)) /\
  (forall text,
      optimized_code parse unparse file_path w = Ok text ->
      (forall other,
          other <> file_path ->
          files (fst (optimize_code parse unparse file_path w)) other =
          files w other) /\
      match write_fault (refused w) (files w) file_path text with
      | None =>
          files (fst (optimize_code parse unparse file_path w)) file_path =
            Some text /\
          stdout (fst (optimize_code parse unparse file_path w)) =
            stdout w ++ [Applied file_path] /\
          snd (optimize_code parse unparse file_path w) = Ok tt
      | Some (OpenFails e) =>
          files (fst (optimize_code parse unparse file_path w)) = files w /\
          snd (optimize_code parse unparse file_path w) =
            (if caught e then Ok tt else Raise e)
      | Some (WriteFails written e) =>
          files (fst (optimize_code parse unparse file_path w)) file_path =
            Some (substring 0 written text) /\
          snd (optimize_code parse unparse file_path w) =
            (if caught e then Ok tt else Raise e)
      end).
Proof.
  split; [|split].
  - intros source_code e Hread Hparse He.
    unfold optimize_code, optimized_code.
    rewrite Hread; simpl. rewrite Hparse. simpl.
    destruct He as [-> | ->]; repeat split; reflexivity.
  - intros e He. unfold optimize_code, handler. rewrite He.
    destruct (caught e); repeat split; reflexivity.
  - intros text Htext. unfold optimize_code, handler, write. rewrite Htext.
    destruct (write_fault (refused w) (files w) file_path text)
      as [[e|written e]|]; simpl.
    + split; [|destruct (caught e); split; reflexivity].
      intros other _. destruct (caught e); reflexivity.
    + split.
      * intros other Hne. destruct (caught e); simpl;
          destruct (String.eqb other file_path) eqn:E; try reflexivity;
          apply String.eqb_eq in E; contradiction.
      * destruct (caught e); simpl; rewrite String.eqb_refl;
          split; reflexivity.
    + split.
      * intros other Hne.
        destruct (String.eqb other file_path) eqn:E; [|reflexivity].
        apply String.eqb_eq in E; contradiction.
      * rewrite String.eqb_refl. repeat split; reflexivity.
Qed.

Lemma optimize_code_writes_only_after_success_witness :
  files (fst (optimize_code (fun _ => Raise SyntaxError) (fun _ => Ok "")
                            "example.py" (mkWorld (fun _ => Some "for") [])))
  = files (mkWorld (fun _ => Some "for") []) /\
  stdout (fst (optimize_code (fun _ => Raise SyntaxError) (fun _ => Ok "")
                             "example.py" (mkWorld (fun _ => Some "for") [])))
  = stdout (mkWorld (fun _ => Some "for") [])
    ++ [Failed "example.py" SyntaxError] /\
  snd (optimize_code (fun _ => Raise SyntaxError) (fun _ => Ok "")
                     "example.py" (mkWorld (fun _ => Some "for") []))
  = Ok tt.
Proof.
  apply (proj1 (@optimize_code_writes_only_after_success
                  (fun _ => Raise SyntaxError) (fun _ => Ok "")
                  "example.py" (mkWorld (fun _ => Some "for") []))
               "for" SyntaxError);
    [reflexivity | reflexivity | left; reflexivity].
Defined.

(** ** A loop without its iterable *)

(** C9, as stated, fails on a [For] node built without [iter] over the
    target [(i, k)]: the test of the target stops the rule before [iter] is
    read, and the rewrite returns the module as it was instead of failing. *)
Lemma loop_without_iter_passes :
  getattr Samples.no_iter_tuple "iter" = Raise AttributeError /\
  rewrite (Module [Samples.no_iter_tuple]) =
  Ok (Module [Samples.no_iter_tuple]) /\
  ~ (exists e, rewrite (Module [Samples.no_iter_tuple]) = Raise e).
Proof.
  repeat split. intros [e H]. discriminate H.
Qed.

(** C9, as the code has it. There is no error of its own for a malformed
    tree.  A [For] node whose target is a simple name and which carries no
    [iter] makes [visit_For] raise Python's [AttributeError]; when the node
    is a statement of the module, after statements that are rewritten
    without error, the rewrite returns no tree, and [optimize_code] on a
    file parsed to that module writes nothing and lets the exception
    through.  A [For] node without [iter] whose target is not a simple name
    is returned as it is. *)
Theorem loop_without_iter
        (fields : list (string * value)) (target : value) :
  lookup "target" fields = Some target ->
  lookup "iter" fields = None ->
  (isinstance target "Name" = false ->
   visit (AST "For" fields) = Ok (Node (AST "For" fields))) /\
  (isinstance target "Name" = true ->
   visit (AST "For" fields) = Raise AttributeError /\
   forall pre pre' post,
     visit_values visit pre = Ok pre' ->
     rewrite (Module (pre ++ AST "For" fields :: post)) =
       Raise AttributeError /\
     forall parse unparse file_path w source_code,
       read file_path w = Ok source_code ->
       parse source_code = Ok (Module (pre ++ AST "For" fields :: post)) ->
       optimize_code parse unparse file_path w = (w, Raise AttributeError)).
Proof.
  intros Ht Hi.
  change (visit (AST "For" fields)) with (visit_For (AST "For" fields)).
  unfold visit_For; simpl. rewrite Ht; simpl. rewrite Hi.
  split; intros Hn; rewrite Hn; simpl; [reflexivity|].
  split; [reflexivity|].
  intros pre pre' post Hpre.
  assert (Hrw : rewrite (Module (pre ++ AST "For" fields :: post)) =
                Raise AttributeError).
  { unfold rewrite. rewrite visit_Module, visit_values_app, Hpre.
    cbn [bind visit_values is_AST].
    change (visit (AST "For" fields)) with (visit_For (AST "For" fields)).
    unfold visit_For; simpl. rewrite Ht; simpl. rewrite Hi, Hn.
    reflexivity. }
  split; [exact Hrw|].
  intros parse unparse file_path w source_code Hread Hparse.
  unfold optimize_code, optimized_code.
  rewrite Hread; simpl. rewrite Hparse; simpl. rewrite Hrw. reflexivity.
Qed.

(** Scenario E, on a loop over the target [i]. *)
Lemma loop_without_iter_witness :
  visit Samples.no_iter_name = Raise AttributeError /\
  forall pre pre' post,
    visit_values visit pre = Ok pre' ->
    rewrite (Module (pre ++ Samples.no_iter_name :: post)) =
      Raise AttributeError /\
    forall parse unparse file_path w source_code,
      read file_path w = Ok source_code ->
      parse source_code = Ok (Module (pre ++ Samples.no_iter_name :: post)) ->
      optimize_code parse unparse file_path w = (w, Raise AttributeError).
Proof.
  apply (proj2 (@loop_without_iter
                  (Samples.no_iter_fields (Name "i" Store)) (Name "i" Store)
                  eq_refl eq_refl)).
  reflexivity.
Defined.

(** * Further properties of the pass *)

(** Taking apart a successful run of a visitor method, keeping the reads as
    they are written, and turning the tests it passed into shapes. *)
Ltac open_run H :=
  repeat match type of H with
         | bind ?m _ = Ok _ =>
             let E := fresh "E" in
             destruct m eqn:E; cbn [bind] in H; [|discriminate H]
         | (if ?b then _ else _) = Ok _ =>
             let E := fresh "E" in destruct b eqn:E
         end.

(** ** What the rules leave alone *)

Lemma eq_str_true (v : value) (s : string) :
  eq_str v s = true -> v = Str s.
Proof.
  destruct v; simpl; try discriminate.
  intros H. apply String.eqb_eq in H. now subst.
Qed.

Lemma isinstance_true (v : value) (cls : string) :
  isinstance v cls = true -> exists fields, v = AST cls fields.
Proof.
  destruct v; simpl; try discriminate.
  intros H. apply String.eqb_eq in H. subst. eauto.
Qed.

Lemma getattr_Ok (obj : value) (name : string) (v : value) :
  getattr obj name = Ok v ->
  exists cls fields, obj = AST cls fields /\ lookup name fields = Some v.
Proof.
  destruct obj; simpl; try discriminate.
  destruct (lookup name fields) eqn:E; [|discriminate].
  intros H; inversion H; subst. eauto.
Qed.

Lemma getattr_AST (cls name : string) (fields : list (string * value))
      (v : value) :
  getattr (AST cls fields) name = Ok v -> lookup name fields = Some v.
Proof.
  simpl. destruct (lookup name fields); intros H; now inversion H.
Qed.

(** A value of length one whose first item is a node is a one-element
    list. *)
Lemma single_item (obj x : value) (n : nat) :
  len obj = Ok n -> Nat.eqb n 1 = true -> item0 obj = Ok x ->
  is_AST x = true -> obj = List [x].
Proof.
  intros Hlen Hn Hitem Hx. apply Nat.eqb_eq in Hn. subst n.
  destruct obj; simpl in *; try discriminate.
  - destruct s; inversion Hitem; subst; discriminate.
  - destruct b; inversion Hitem; subst; discriminate.
  - destruct l as [|y [|z l]]; inversion Hlen; inversion Hitem; now subst.
Qed.

Lemma isinstance_is_AST (v : value) (cls : string) :
  isinstance v cls = true -> is_AST v = true.
Proof. destruct v; simpl; auto; discriminate. Qed.


Ltac shape :=
  repeat match goal with
         | H : negb _ = false |- _ => apply negb_false_iff in H
         | H : eq_str ?v _ = true |- _ => apply eq_str_true in H; subst v
         | H : isinstance ?v _ = true |- _ =>
             is_var v; apply isinstance_true in H as [? ->]
         | H : getattr (AST _ _) _ = Ok _ |- _ => apply getattr_AST in H
         end.

(** X1. The set-wrapping rule fires on nothing but its pattern: when the
    visit of a call succeeds, it returns the call as it is, or else the call
    is to the name [list] with a one-element list of positional arguments
    whose element is a call to the name [set], and that element is what is
    returned.  So two arguments, another callee or another inner call all
    leave the node unchanged. *)
Theorem visit_Call_exact (fields : list (string * value)) (r : visited) :
  visit (AST "Call" fields) = Ok r ->
  r = Node (AST "Call" fields) \/
  exists ff inner sf,
    lookup "func" fields = Some (AST "Name" ff) /\
    lookup "id" ff = Some (Str "list") /\
    lookup "args" fields = Some (List [AST "Call" inner]) /\
    lookup "func" inner = Some (AST "Name" sf) /\
    lookup "id" sf = Some (Str "set") /\
    r = Node (AST "Call" inner).
Proof.
  change (visit (AST "Call" fields)) with (visit_Call (AST "Call" fields)).
  unfold visit_Call. intros H.
  open_run H; inversion H; auto.
  right. shape.
  match goal with
  | Hlen : len ?args = Ok ?n, Hn : Nat.eqb ?n 1 = true,
    Hitem : item0 ?args = Ok _ |- _ =>
      pose proof (single_item _ Hlen Hn Hitem eq_refl); subst args
  end.
  eauto 10.
Qed.

Lemma visit_Call_exact_witness :
  visit (Call (Name "list" Load) [Samples.set_values; Samples.k] []) =
  Ok (Node (Call (Name "list" Load) [Samples.set_values; Samples.k] [])).
Proof.
  destruct (@visit_Call_exact
              [("func", Name "list" Load);
               ("args", List [Samples.set_values; Samples.k]);
               ("keywords", List [])]
              (Node (Call (Name "list" Load)
                          [Samples.set_values; Samples.k] []))
              eq_refl) as [E | (ff & inner & sf & _ & _ & E & _)].
  - reflexivity.
  - discriminate E.
Defined.

(** X2. The range-loop rule fires on nothing but its pattern: when the
    visit of a loop succeeds, it returns the loop as it is, or else the
    target is a name, the iterable a call to the name [range], the body a
    one-element list holding an expression statement whose value is a call,
    the callee of that call carries the [id] [print], and the loop is
    replaced by the one statement [print("Hello")].  So a body of two
    statements, another iterable, a target that is no name or another
    callee all leave the loop unchanged. *)
Theorem visit_For_exact (fields : list (string * value)) (r : visited) :
  visit (AST "For" fields) = Ok r ->
  r = Node (AST "For" fields) \/
  exists tf itf rf ef cf callee,
    lookup "target" fields = Some (AST "Name" tf) /\
    lookup "iter" fields = Some (AST "Call" itf) /\
    lookup "func" itf = Some (AST "Name" rf) /\
    lookup "id" rf = Some (Str "range") /\
    lookup "body" fields = Some (List [AST "Expr" ef]) /\
    lookup "value" ef = Some (AST "Call" cf) /\
    lookup "func" cf = Some callee /\
    getattr callee "id" = Ok (Str "print") /\
    r = Nodes [print_hello].
Proof.
  change (visit (AST "For" fields)) with (visit_For (AST "For" fields)).
  unfold visit_For. intros H.
  open_run H; inversion H; auto.
  right. shape.
  match goal with
  | Hlen : len ?body = Ok ?n, Hn : Nat.eqb ?n 1 = true,
    Hitem : item0 ?body = Ok _ |- _ =>
      pose proof (single_item _ Hlen Hn Hitem eq_refl); subst body
  end.
  eauto 15.
Qed.

Lemma visit_For_exact_witness :
  visit Samples.loop_two = Ok (Node Samples.loop_two).
Proof.
  destruct (@visit_For_exact
              [("target", Name "i" Store); ("iter", Samples.range3);
               ("body", List [Samples.print_list_set; Samples.print_list_set]);
               ("orelse", List []); ("type_comment", None_)]
              (Node Samples.loop_two) eq_refl)
    as [E | (tf & itf & rf & ef & cf & callee & _ & _ & _ & _ & E & _)].
  - reflexivity.
  - discriminate E.
Defined.

(** ** What a visit returns *)

Lemma visit_class_kept (v : value) (r : visited) :
  visit v = Ok r ->
  match r with
  | Node n =>
      exists cls fields fields', v = AST cls fields /\ n = AST cls fields'
  | Nodes l => isinstance v "For" = true /\ l = [print_hello]
  end.
Proof.
  destruct v as [| | | | | | | | |cls fields]; try discriminate.
  intros H.
  destruct (String.eqb cls "For") eqn:EFor.
  { apply String.eqb_eq in EFor; subst cls.
    change (visit (AST "For" fields))
      with (visit_For (AST "For" fields)) in H.
    destruct (visit_For_result _ H) as [-> | ->]; [eauto | auto]. }
  destruct (String.eqb cls "Call") eqn:ECall.
  { apply String.eqb_eq in ECall; subst cls.
    change (visit (AST "Call" fields))
      with (visit_Call (AST "Call" fields)) in H.
    destruct (visit_Call_result _ H) as [-> | (inner & -> & Hcls & _)];
      [eauto|].
    apply isinstance_true in Hcls as [fields' ->]. eauto. }
  destruct (String.eqb cls "FunctionDef") eqn:EDef.
  { apply String.eqb_eq in EDef; subst cls.
    change (visit (AST "FunctionDef" fields))
      with (visit_FunctionDef (AST "FunctionDef" fields)) in H.
    unfold visit_FunctionDef in H.
    open_run H; inversion H; simpl; eauto. }
  apply visit_generic_Ok in H as (fields' & _ & ->); try assumption.
  eauto.
Qed.

(** X3. The pass never changes the class of a node.  A successful visit
    returns either one node of the class of the visited one, or, for a
    [For] loop only, the one-statement list [[print("Hello")]]: an
    expression is replaced by an expression, a statement by exactly one
    statement, and nothing is ever deleted. *)
Theorem visit_keeps_class (cls : string) (fields : list (string * value))
        (r : visited) :
  visit (AST cls fields) = Ok r ->
  (exists fields', r = Node (AST cls fields')) \/
  (cls = "For" /\ r = Nodes [print_hello]).
Proof.
  intros H. apply visit_class_kept in H. destruct r as [n|l].
  - destruct H as (cls' & fields0 & fields' & E & ->).
    inversion E; subst. eauto.
  - destruct H as [Hcls ->]. simpl in Hcls.
    apply String.eqb_eq in Hcls. auto.
Qed.

Lemma visit_keeps_class_witness :
  (exists fields', Node Samples.set_values = Node (AST "Call" fields')) \/
  ("Call" = "For" /\ Node Samples.set_values = Nodes [print_hello]).
Proof.
  apply (@visit_keeps_class "Call" Samples.list_set_fields
           (Node Samples.set_values)).
  reflexivity.
Defined.

Lemma visit_values_length (l l' : list value) :
  visit_values visit l = Ok l' -> length l' = length l.
Proof.
  revert l'. induction l as [|v rest IH]; intros l' H.
  - now inversion H.
  - cbn [visit_values] in H. destruct (is_AST v).
    + destruct (visit v) as [[n|l0]|e] eqn:Ev; try discriminate;
        apply bind_Ok in H as (new & Hnew & H); inversion H; subst l'.
      * simpl. now rewrite (IH _ Hnew).
      * apply visit_class_kept in Ev as [_ ->]. simpl.
        now rewrite (IH _ Hnew).
    + apply bind_Ok in H as (new & Hnew & H); inversion H; subst l'.
      simpl. now rewrite (IH _ Hnew).
Qed.

Lemma rewrite_Module (body : list value) (tree : value) :
  rewrite (Module body) = Ok tree ->
  exists body', visit_values visit body = Ok body' /\ tree = Module body'.
Proof.
  unfold rewrite. rewrite visit_Module. intros H.
  apply bind_Ok in H as (r & Hr & H).
  apply bind_Ok in Hr as (body' & Hb & Hr).
  inversion Hr; subst r. inversion H. eauto.
Qed.

(** X4. The pass keeps the number of statements: a rewritten module has as
    many statements as the module had, since every statement comes back as
    one statement.  The same holds for every list the traversal goes
    through. *)
Theorem rewrite_keeps_statement_count (body : list value) (tree : value) :
  rewrite (Module body) = Ok tree ->
  exists body', tree = Module body' /\ length body' = length body.
Proof.
  intros H. apply rewrite_Module in H as (body' & Hb & ->).
  exists body'. split; [reflexivity|]. now apply visit_values_length.
Qed.

Lemma rewrite_keeps_statement_count_witness :
  exists body',
    Module [print_hello; Expr Samples.set_values; Samples.fib [decorator]] =
    Module body' /\
    length body' =
    length [Samples.loop; Expr Samples.list_set; Samples.fib []].
Proof.
  apply (@rewrite_keeps_statement_count
           [Samples.loop; Expr Samples.list_set; Samples.fib []]).
  reflexivity.
Defined.

(** X5. Statements are rewritten independently of their neighbours: when two
    modules are rewritten without error, the module made of the statements
    of the first followed by those of the second is rewritten to the
    statements of the first result followed by those of the second; and
    when the first fails, the longer module fails with the same
    exception. *)
Theorem rewrite_Module_app (body1 body2 : list value) :
  (forall body1' body2',
      rewrite (Module body1) = Ok (Module body1') ->
      rewrite (Module body2) = Ok (Module body2') ->
      rewrite (Module (body1 ++ body2)) = Ok (Module (body1' ++ body2'))) /\
  (forall e,
      rewrite (Module body1) = Raise e ->
      rewrite (Module (body1 ++ body2)) = Raise e).
Proof.
  split.
  - intros body1' body2' H1 H2.
    apply rewrite_Module in H1 as (b1 & Hb1 & E1).
    apply rewrite_Module in H2 as (b2 & Hb2 & E2).
    inversion E1; inversion E2; subst.
    unfold rewrite. rewrite visit_Module, visit_values_app, Hb1; simpl.
    rewrite Hb2. reflexivity.
  - intros e H. unfold rewrite in *. rewrite visit_Module in *.
    rewrite visit_values_app.
    destruct (visit_values visit body1); simpl in *; [discriminate|exact H].
Qed.

Lemma rewrite_Module_app_witness :
  rewrite (Module ([Samples.loop] ++ [Expr Samples.list_set])) =
  Ok (Module ([print_hello] ++ [Expr Samples.set_values])) /\
  rewrite (Module ([Samples.loop_method] ++ [Samples.loop])) =
  Raise AttributeError.
Proof.
  split.
  - apply (proj1 (@rewrite_Module_app [Samples.loop]
                    [Expr Samples.list_set])); reflexivity.
  - apply (proj2 (@rewrite_Module_app [Samples.loop_method]
                    [Samples.loop])); reflexivity.
Defined.

(** ** Trees on which no rule matches *)

Lemma visit_For_no_match (fields : list (string * value)) (r : visited) :
  range_print_loop (AST "For" fields) = false ->
  visit (AST "For" fields) = Ok r -> r = Node (AST "For" fields).
Proof.
  intros Hno H.
  change (visit (AST "For" fields)) with (visit_For (AST "For" fields)) in H.
  unfold visit_For in H.
  open_run H; inversion H; auto.
  exfalso. shape.
  match goal with
  | Hlen : len ?body = Ok ?n, Hn : Nat.eqb ?n 1 = true,
    Hitem : item0 ?body = Ok _ |- _ =>
      pose proof (single_item _ Hlen Hn Hitem eq_refl); subst body
  end.
  unfold range_print_loop, range_call, callee_print in Hno. simpl in Hno.
  repeat match goal with
         | Hl : lookup _ _ = Some _ |- _ => rewrite Hl in Hno; simpl in Hno
         | Hg : getattr _ _ = Ok _ |- _ => rewrite Hg in Hno; simpl in Hno
         end.
  discriminate Hno.
Qed.

Lemma visit_Call_no_match (fields : list (string * value)) (r : visited) :
  list_of_set (AST "Call" fields) = false ->
  visit (AST "Call" fields) = Ok r -> r = Node (AST "Call" fields).
Proof.
  intros Hno H.
  change (visit (AST "Call" fields)) with (visit_Call (AST "Call" fields)) in H.
  unfold visit_Call in H.
  open_run H; inversion H; auto.
  exfalso. shape.
  match goal with
  | Hlen : len ?args = Ok ?n, Hn : Nat.eqb ?n 1 = true,
    Hitem : item0 ?args = Ok _ |- _ =>
      pose proof (single_item _ Hlen Hn Hitem eq_refl); subst args
  end.
  unfold list_of_set, call_to in Hno. simpl in Hno.
  repeat match goal with
         | Hl : lookup _ _ = Some _ |- _ => rewrite Hl in Hno; simpl in Hno
         end.
  discriminate Hno.
Qed.

Lemma visit_FunctionDef_no_match (fields : list (string * value))
      (r : visited) :
  fib_declaration (AST "FunctionDef" fields) = false ->
  visit (AST "FunctionDef" fields) = Ok r ->
  r = Node (AST "FunctionDef" fields).
Proof.
  intros Hno H.
  change (visit (AST "FunctionDef" fields))
    with (visit_FunctionDef (AST "FunctionDef" fields)) in H.
  unfold visit_FunctionDef in H. unfold fib_declaration in Hno.
  simpl in Hno.
  destruct (getattr (AST "FunctionDef" fields) "name") as [name|] eqn:E;
    [|discriminate H].
  cbn [bind] in H. simpl in E.
  destruct (lookup "name" fields); inversion E; subst.
  rewrite Hno in H. now inversion H.
Qed.

Lemma entered_generic (cls : string) :
  entered cls = true ->
  String.eqb cls "For" = false /\ String.eqb cls "Call" = false /\
  String.eqb cls "FunctionDef" = false.
Proof.
  unfold entered. intros H.
  apply andb_true_iff in H as [H H3]. apply andb_true_iff in H as [H1 H2].
  repeat split; now apply negb_true_iff.
Qed.

Lemma not_entered (cls : string) :
  entered cls = false ->
  cls = "For" \/ cls = "Call" \/ cls = "FunctionDef".
Proof.
  unfold entered. intros H.
  destruct (String.eqb cls "For") eqn:E1;
    [apply String.eqb_eq in E1; auto|].
  destruct (String.eqb cls "Call") eqn:E2;
    [apply String.eqb_eq in E2; auto|].
  destruct (String.eqb cls "FunctionDef") eqn:E3;
    [apply String.eqb_eq in E3; auto|].
  discriminate H.
Qed.

Lemma reaches_AST (p : value -> bool) (cls : string)
      (fields : list (string * value)) :
  reaches p (AST cls fields) =
  p (AST cls fields) ||
  (entered cls && existsb (fun kv => field_reaches p (snd kv)) fields).
Proof. reflexivity. Qed.

Lemma visit_values_unchanged (l : list value) :
  Forall node_unchanged l -> values_unchanged l.
Proof.
  induction 1 as [|v rest Hv _ IH]; intros Hno l' Hl'.
  - now inversion Hl'.
  - simpl in Hno. apply orb_false_iff in Hno as [Hnv Hnrest].
    cbn [visit_values] in Hl'. destruct (is_AST v).
    + destruct (visit v) as [r|e] eqn:Ev; [|discriminate].
      rewrite (Hv Hnv _ Ev) in Hl'.
      apply bind_Ok in Hl' as (new & Hnew & Hl'). inversion Hl'.
      now rewrite (IH Hnrest _ Hnew).
    + apply bind_Ok in Hl' as (new & Hnew & Hl'). inversion Hl'.
      now rewrite (IH Hnrest _ Hnew).
Qed.

Lemma visit_unchanged (v : value) :
  node_unchanged v /\ (forall l, v = List l -> values_unchanged l).
Proof.
  induction v using value_nested_ind;
    try (split; [intros _ r Hr; discriminate Hr | intros l0 E; discriminate E]).
  - split; [intros _ r Hr; discriminate Hr|].
    intros l0 E. inversion E; subst l0. apply visit_values_unchanged.
    eapply Forall_impl; [|eassumption]. now intros a [Ha _].
  - split; [|intros l0 E; discriminate E].
    intros Hno r Hr. rewrite reaches_AST in Hno.
    apply orb_false_iff in Hno as [Hrule Hbelow].
    unfold rule_matches in Hrule.
    apply orb_false_iff in Hrule as [Hrule Hfib].
    apply orb_false_iff in Hrule as [Hloop Hcall].
    destruct (entered cls) eqn:Eent.
    + apply entered_generic in Eent as (E1 & E2 & E3).
      apply visit_generic_Ok in Hr as (fields' & Hf & ->); try assumption.
      simpl in Hbelow. f_equal. f_equal.
      clear Hloop Hcall Hfib E1 E2 E3.
      revert fields' Hf Hbelow.
      induction H as [|[k v] rest Hv _ IH]; intros fields' Hf Hbelow.
      * now inversion Hf.
      * simpl in Hbelow. apply orb_false_iff in Hbelow as [Hbv Hbrest].
        cbn [visit_fields] in Hf.
        destruct (visit_field visit v) as [v'|] eqn:Ev; [|discriminate].
        apply bind_Ok in Hf as (rest' & Hrest & Hf). inversion Hf.
        rewrite (IH _ Hrest Hbrest). f_equal. f_equal.
        destruct Hv as [Hnode Hlist]. simpl in Hnode, Hlist.
        destruct v as [| | | | | | | |l|cls0 fields0];
          cbn [visit_field] in Ev; try (now inversion Ev).
        -- apply bind_Ok in Ev as (l' & Hl' & Ev). inversion Ev.
           f_equal. exact (Hlist l eq_refl Hbv _ Hl').
        -- cbn [field_reaches] in Hbv.
           destruct (visit (AST cls0 fields0)) as [r|] eqn:Er;
             [|discriminate].
           rewrite (Hnode Hbv _ Er) in Ev. now inversion Ev.
    + apply not_entered in Eent as [-> | [-> | ->]].
      * now apply visit_For_no_match.
      * now apply visit_Call_no_match.
      * now apply visit_FunctionDef_no_match.
Qed.

(** X6. A tree is changed only where a rule matches: when the traversal
    reaches no loop of the range-print shape, no [list(set(...))] call and
    no declaration named [fib], a run that succeeds returns the tree it was
    given. *)
Theorem rewrite_unchanged_without_match (tree result_ : value) :
  reaches rule_matches tree = false ->
  rewrite tree = Ok result_ ->
  result_ = tree.
Proof.
  intros Hno H. unfold rewrite in H.
  apply bind_Ok in H as (r & Hr & H).
  destruct (visit_unchanged tree) as [Hnode _].
  rewrite (Hnode Hno _ Hr) in H. now inversion H.
Qed.

Lemma rewrite_unchanged_without_match_witness :
  reaches rule_matches
          (Module [Samples.loop_two; Samples.g; Samples.print_list_set])
  = false /\
  Module [Samples.loop_two; Samples.g; Samples.print_list_set] =
  Module [Samples.loop_two; Samples.g; Samples.print_list_set].
Proof.
  split; [reflexivity|].
  apply (@rewrite_unchanged_without_match
           (Module [Samples.loop_two; Samples.g; Samples.print_list_set])
           (Module [Samples.loop_two; Samples.g; Samples.print_list_set]));
    reflexivity.
Defined.

(** ** Well-formed nodes and the one read that can fail *)

















(** ** Repeated runs on a declaration named [fib] *)

Lemma update_update (name : string) (v1 v2 : value)
      (fields : list (string * value)) :
  update name v2 (update name v1 fields) = update name v2 fields.
Proof.
  induction fields as [|[k w] rest IH]; simpl; [reflexivity|].
  destruct (String.eqb k name) eqn:E; simpl; rewrite E; congruence.
Qed.

Lemma update_present (name : string) (v : value)
      (fields : list (string * value)) :
  lookup name fields = Some v -> update name v fields = fields.
Proof.
  induction fields as [|[k w] rest IH]; simpl; [reflexivity|].
  destruct (String.eqb k name) eqn:E.
  - intros H; inversion H; reflexivity.
  - intros H. now rewrite IH.
Qed.

Lemma rewrite_fib (fields : list (string * value))
      (decorator_list : list value) :
  lookup "name" fields = Some (Str "fib") ->
  lookup "decorator_list" fields = Some (List decorator_list) ->
  rewrite (AST "FunctionDef" fields) =
  Ok (AST "FunctionDef"
          (update "decorator_list" (List (decorator_list ++ [decorator]))
                  fields)).
Proof.
  intros Hn Hd. unfold rewrite.
  change (visit (AST "FunctionDef" fields))
    with (visit_FunctionDef (AST "FunctionDef" fields)).
  unfold visit_FunctionDef; simpl.
  rewrite Hn; simpl. rewrite Hd; reflexivity.
Qed.

(** X8. Decorators pile up: [n] runs of the pass on a declaration named
    [fib] leave it with its decorators followed by [n] copies of
    [lru_cache], and with every other attribute as it was. *)
Theorem passes_on_fib (n : nat) (fields : list (string * value))
        (decorator_list : list value) :
  lookup "name" fields = Some (Str "fib") ->
  lookup "decorator_list" fields = Some (List decorator_list) ->
  passes n (AST "FunctionDef" fields) =
  Ok (AST "FunctionDef"
          (update "decorator_list"
                  (List (decorator_list ++ repeat decorator n)) fields)).
Proof.
  revert fields decorator_list.
  induction n as [|n IH]; intros fields decorator_list Hn Hd.
  - simpl. rewrite app_nil_r. now rewrite (update_present _ _ Hd).
  - cbn [passes]. rewrite (rewrite_fib _ Hn Hd). cbn [bind].
    rewrite (IH _ (decorator_list ++ [decorator])).
    + rewrite update_update, <- app_assoc. reflexivity.
    + rewrite lookup_update_other; [exact Hn | discriminate].
    + eapply lookup_update_same; eassumption.
Qed.

Lemma passes_on_fib_witness :
  passes 3 (Samples.fib [Samples.k]) =
  Ok (Samples.fib ([Samples.k] ++ repeat decorator 3)).
Proof.
  apply (@passes_on_fib 3 (Samples.fib_fields [Samples.k]) [Samples.k]);
    reflexivity.
Defined.

(** ** [optimize_code] and the rest of the disk *)



(** * The driver *)

(** ** Which files a scan takes *)

Lemma append_empty_r (s : string) : (s ++ "")%string = s.
Proof. induction s as [|c s IH]; simpl; congruence. Qed.

Lemma append_assoc_string (a b c : string) :
  ((a ++ b) ++ c)%string = (a ++ b ++ c)%string.
Proof. induction a as [|x a IH]; simpl; congruence. Qed.

Lemma endswith_iff (s suffix : string) :
  endswith s suffix = true <-> exists before, s = (before ++ suffix)%string.
Proof.
  split.
  - induction s as [|c s IH]; cbn [endswith]; intros H.
    + apply orb_true_iff in H as [H | H]; [|discriminate].
      apply String.eqb_eq in H. exists "". now subst.
    + apply orb_true_iff in H as [H | H].
      * apply String.eqb_eq in H. exists "". now subst.
      * destruct (IH H) as [before ->]. now exists (String c before).
  - intros [before ->].
    induction before as [|c before IH].
    + destruct suffix; cbn [endswith String.append];
        rewrite String.eqb_refl; reflexivity.
    + cbn [endswith String.append]. rewrite IH. apply orb_true_r.
Qed.

Lemma startswith_iff (s prefix : string) :
  startswith s prefix = true <-> exists rest, s = (prefix ++ rest)%string.
Proof.
  unfold startswith. revert s.
  induction prefix as [|c prefix IH]; intros s.
  - split; [intros _; now exists s|]. intros _. now destruct s.
  - destruct s as [|d s]; simpl.
    + split; [discriminate | intros [rest H]; discriminate H].
    + destruct (Ascii.ascii_dec c d) as [->|Hne].
      * rewrite IH. split; intros [rest H]; exists rest;
          [now subst | now inversion H].
      * split; [discriminate|]. intros [rest H]. inversion H. congruence.
Qed.

(** X10. A scan takes exactly the names of the form [simple*.py] and
    [example*.py]: a name is selected if and only if it is [simple] or
    [example], followed by any text, followed by [.py]. *)
Theorem selected_iff (file : string) :
  selected file = true <->
  exists middle,
    file = ("simple" ++ middle ++ ".py")%string \/
    file = ("example" ++ middle ++ ".py")%string.
Proof.
  unfold selected. split.
  - intros H. apply andb_true_iff in H as [Hstart Hend].
    apply orb_true_iff in Hstart as [Hs | Hs];
      apply startswith_iff in Hs as [rest ->];
      simpl in Hend; apply endswith_iff in Hend as [middle ->]; eauto.
  - intros [middle [-> | ->]]; apply andb_true_iff; split.
    + apply orb_true_iff. left. apply startswith_iff. eauto.
    + apply endswith_iff. exists ("simple" ++ middle)%string.
      now rewrite append_assoc_string.
    + apply orb_true_iff. right. apply startswith_iff. eauto.
    + apply endswith_iff. exists ("example" ++ middle)%string.
      now rewrite append_assoc_string.
Qed.

Lemma selected_iff_witness :
  selected "simple_loops.py" = true /\ selected "test_simple.py" = false
  /\ selected "example.pyc" = false.
Proof.
  split.
  - apply (proj2 (selected_iff "simple_loops.py")).
    exists "_loops". left. reflexivity.
  - split; reflexivity.
Defined.

(** ** The commands launched for a file *)

Section DriverFacts.
Variable subprocess_run :
  string -> (string -> option string) ->
  (string -> option string) * result (string * string).
Variable str : exn -> string.
Variable parse : string -> result value.
Variable unparse : value -> result string.

Lemma run_tool_commands (running : string -> line)
      (output : string -> string -> line)
      (file_path : string) (tool_command : string * string) (s : system) :
  commands (run_tool subprocess_run str running output
                     file_path tool_command s) =
  commands s ++ [format (snd tool_command) file_path].
Proof.
  destruct tool_command as [tool command]. unfold run_tool, run_command.
  simpl.
  destruct (subprocess_run (format command file_path) (disk s))
    as [disk' [[out err]|e]]; simpl.
  - destruct out, err; reflexivity.
  - destruct (str e); reflexivity.
Qed.

Lemma run_tools_commands (running : string -> line)
      (output : string -> string -> line) (file_path : string)
      (tools : list (string * string)) (s : system) :
  commands (fold_left
              (fun s' tool_command =>
                 run_tool subprocess_run str running output
                          file_path tool_command s')
              tools s) =
  commands s ++
  map (fun tool_command => format (snd tool_command) file_path) tools.
Proof.
  revert s. induction tools as [|tc tools IH]; intros s; simpl.
  - now rewrite app_nil_r.
  - rewrite IH, run_tool_commands, <- app_assoc. reflexivity.
Qed.

Lemma optimize_commands (file_path : string) (s : system) :
  commands (fst (optimize parse unparse file_path s)) = commands s.
Proof.
  unfold optimize.
  destruct (optimize_code parse unparse file_path
                          (World (disk s) [] (denied s)));
    reflexivity.
Qed.

Lemma process_python_file_commands (file_path : string) (s : system) :
  commands (fst (process_python_file subprocess_run str parse unparse
                                     file_path s)) =
  commands s ++ tool_commands file_path.
Proof.
  unfold process_python_file, detect_errors, format_code, tool_commands.
  rewrite optimize_commands, run_tools_commands. cbn [say commands].
  rewrite run_tools_commands. cbn [say commands].
  rewrite map_app, app_assoc. reflexivity.
Qed.
End DriverFacts.

(** X11. Whatever the tools answer, even when they fail, processing a file
    hands the shell six commands, in this order: [pylint], [ruff] and
    [vulture], then [black], [autopep8] and [isort], each with the path
    pasted as it is into the command line; the optimizer itself launches
    nothing. *)
Theorem process_python_file_launches
        (subprocess_run :
           string -> (string -> option string) ->
           (string -> option string) * result (string * string))
        (str : exn -> string)
        (parse : string -> result value) (unparse : value -> result string)
        (file_path : string) (s : system) :
  commands (fst (process_python_file subprocess_run str parse unparse
                                     file_path s)) =
  commands s ++
  [("pylint " ++ file_path ++ " --output-format=text")%string;
   ("ruff check " ++ file_path)%string;
   ("vulture " ++ file_path)%string;
   ("black " ++ file_path)%string;
   ("autopep8 --in-place " ++ file_path)%string;
   ("isort " ++ file_path)%string].
Proof.
  rewrite process_python_file_commands. f_equal.
  unfold tool_commands, format. simpl.
  now rewrite !append_empty_r.
Qed.

(** ** Scanning a directory *)

Section ScanFacts.
Variable subprocess_run :
  string -> (string -> option string) ->
  (string -> option string) * result (string * string).
Variable str : exn -> string.
Variable parse : string -> result value.
Variable unparse : value -> result string.
Variable join : string -> string -> string.

Let all := process_all subprocess_run str parse unparse.

Lemma process_all_app (paths1 paths2 : list string) (s : system) :
  all (paths1 ++ paths2) s =
  match all paths1 s with
  | (s', Ok _) => all paths2 s'
  | (s', Raise e) => (s', Raise e)
  end.
Proof.
  revert s. induction paths1 as [|p paths1 IH]; intros s.
  - reflexivity.
  - unfold all in *. cbn [process_all app].
    destruct (process_python_file subprocess_run str parse unparse p s)
      as [s' [[]|e]]; [apply IH | reflexivity].
Qed.

Lemma scan_files_process_all (root : string) (files_ : list string)
      (s : system) :
  scan_files subprocess_run str parse unparse join root files_ s =
  all (map (join root) (filter selected files_)) s.
Proof.
  revert s. induction files_ as [|file rest IH]; intros s.
  - reflexivity.
  - cbn [scan_files filter]. destruct (selected file).
    + unfold all in *. cbn [map process_all].
      destruct (process_python_file subprocess_run str parse unparse
                                    (join root file) s)
        as [s' [[]|e]]; [apply IH | reflexivity].
    + apply IH.
Qed.

Lemma scan_walk_process_all
      (walked : list (string * list string * list string)) (s : system) :
  scan_walk subprocess_run str parse unparse join walked s =
  all (targets join walked) s.
Proof.
  revert s. induction walked as [|[[root dirs] files_] rest IH]; intros s.
  - reflexivity.
  - cbn [scan_walk targets flat_map].
    rewrite process_all_app, scan_files_process_all.
    destruct (all (map (join root) (filter selected files_)) s)
      as [s' [[]|e]]; [apply IH | reflexivity].
Qed.

Lemma process_all_commands (paths : list string) (s s' : system) :
  all paths s = (s', Ok tt) ->
  commands s' = commands s ++ flat_map tool_commands paths.
Proof.
  revert s. induction paths as [|p paths IH]; intros s H.
  - inversion H. now rewrite app_nil_r.
  - unfold all in *. cbn [process_all] in H.
    destruct (process_python_file subprocess_run str parse unparse p s)
      as [s1 [[]|e]] eqn:E; [|discriminate].
    rewrite (IH _ H). cbn [flat_map].
    pose proof (process_python_file_commands
                  subprocess_run str parse unparse p s) as Hc.
    rewrite E in Hc. simpl in Hc. rewrite Hc, <- app_assoc. reflexivity.
Qed.
End ScanFacts.

(** X12. A scan processes the selected files and no others, in the order
    [os.walk] lists them: scanning a directory is processing, one after the
    other, the joined paths of the selected names of each triple; and a scan
    that returns has launched the six commands of each of these paths, in
    that order, and no other command. *)
Theorem scan_and_optimize_targets
        (subprocess_run :
           string -> (string -> option string) ->
           (string -> option string) * result (string * string))
        (str : exn -> string)
        (parse : string -> result value) (unparse : value -> result string)
        (os_walk : string -> list (string * list string * list string))
        (join : string -> string -> string)
        (directory : string) (s : system) :
  scan_and_optimize subprocess_run str parse unparse os_walk join
                    directory s =
  process_all subprocess_run str parse unparse
              (targets join (os_walk directory)) s /\
  forall s',
    scan_and_optimize subprocess_run str parse unparse os_walk join
                      directory s = (s', Ok tt) ->
    commands s' =
    commands s ++ flat_map tool_commands (targets join (os_walk directory)).
Proof.
  unfold scan_and_optimize. split.
  - apply scan_walk_process_all.
  - intros s' H. rewrite scan_walk_process_all in H.
    eapply process_all_commands; eassumption.
Qed.

(** X13. One failure ends the scan.  When a file lets an exception through
    (the optimizer raises something other than [SyntaxError] or
    [ValueError], as on a loop that calls a method), the scan stops there
    with that exception: the paths that [os.walk] lists after it are not
    processed, whatever they are. *)
Theorem scan_stops_at_first_exception
        (subprocess_run :
           string -> (string -> option string) ->
           (string -> option string) * result (string * string))
        (str : exn -> string)
        (parse : string -> result value) (unparse : value -> result string)
        (os_walk : string -> list (string * list string * list string))
        (join : string -> string -> string)
        (directory : string) (before after : list string)
        (file_path : string) (s s1 s2 : system) (e : exn) :
  targets join (os_walk directory) = before ++ file_path :: after ->
  process_all subprocess_run str parse unparse before s = (s1, Ok tt) ->
  process_python_file subprocess_run str parse unparse file_path s1 =
    (s2, Raise e) ->
  scan_and_optimize subprocess_run str parse unparse os_walk join
                    directory s = (s2, Raise e) /\
  commands s2 =
  commands s ++ flat_map tool_commands (before ++ [file_path]).
Proof.
  intros Ht Hbefore Hfile. unfold scan_and_optimize.
  rewrite scan_walk_process_all, Ht, process_all_app, Hbefore.
  cbn [process_all]. rewrite Hfile. split; [reflexivity|].
  rewrite flat_map_app, app_assoc.
  rewrite <- (process_all_commands _ _ _ _ _ _ Hbefore).
  pose proof (process_python_file_commands
                subprocess_run str parse unparse file_path s1) as Hc.
  rewrite Hfile in Hc. simpl in Hc. rewrite Hc.
  cbn [flat_map]. now rewrite app_nil_r.
Qed.

Lemma scan_and_optimize_targets_witness :
  commands (fst (scan_and_optimize Run.quiet Run.str Run.parse_pass
                                   Run.unparse Run.os_walk Run.join
                                   "dir" Run.start)) =
  commands Run.start ++
  flat_map tool_commands (targets Run.join (Run.os_walk "dir")).
Proof.
  apply (proj2 (@scan_and_optimize_targets
                  Run.quiet Run.str Run.parse_pass Run.unparse
                  Run.os_walk Run.join "dir" Run.start)).
  vm_compute. reflexivity.
Defined.

Lemma scan_stops_at_first_exception_witness :
  snd (scan_and_optimize Run.quiet Run.str Run.parse_method_loop
                         Run.unparse Run.os_walk Run.join
                         "dir" Run.start) = Raise AttributeError /\
  commands (fst (scan_and_optimize Run.quiet Run.str Run.parse_method_loop
                                   Run.unparse Run.os_walk Run.join
                                   "dir" Run.start)) =
  commands Run.start ++ flat_map tool_commands ([] ++ ["dir/simple.py"]).
Proof.
  assert (Ht : targets Run.join (Run.os_walk "dir") =
               [] ++ "dir/simple.py" :: ["dir/example_two.py"])
    by (vm_compute; reflexivity).
  assert (Hfile : process_python_file
                    Run.quiet Run.str Run.parse_method_loop Run.unparse
                    "dir/simple.py" Run.start =
                  (fst (process_python_file
                          Run.quiet Run.str Run.parse_method_loop Run.unparse
                          "dir/simple.py" Run.start), Raise AttributeError))
    by (vm_compute; reflexivity).
  destruct (@scan_stops_at_first_exception
              Run.quiet Run.str Run.parse_method_loop Run.unparse
              Run.os_walk Run.join "dir" [] ["dir/example_two.py"]
              "dir/simple.py" Run.start Run.start _
              AttributeError Ht eq_refl Hfile) as [E C].
  rewrite E. split; [reflexivity | exact C].
Defined.

(** ** The command line *)

(** X14. The closing line is unconditional.  With anything but one argument
    the program prints the usage line and exits with code 1, launching
    nothing.  Whenever it returns, the last line printed is the one saying
    that all files have been optimized: also for a path that is neither a
    directory nor a [.py] file, where the only other line is the one
    calling the path invalid and nothing has been launched or written. *)
Theorem main_endings
        (subprocess_run :
           string -> (string -> option string) ->
           (string -> option string) * result (string * string))
        (str : exn -> string)
        (parse : string -> result value) (unparse : value -> result string)
        (os_walk : string -> list (string * list string * list string))
        (join : string -> string -> string)
        (isdir isfile : string -> bool)
        (argv : list string) (s : system) :
  (length argv <> 2 ->
   main subprocess_run str parse unparse os_walk join isdir isfile argv s =
   (say Usage s, Exited 1)) /\
  (forall s',
      main subprocess_run str parse unparse os_walk join isdir isfile argv s =
      (s', Returned) ->
      exists before, console s' = before ++ [AllOptimized]) /\
  (forall program target_path,
      argv = [program; target_path] ->
      isdir target_path = false ->
      isfile target_path && endswith target_path ".py" = false ->
      main subprocess_run str parse unparse os_walk join isdir isfile argv s =
      (say AllOptimized (say (InvalidPath target_path) s), Returned)).
Proof.
  split; [|split].
  - intros Hlen. destruct argv as [|a [|b [|c rest]]]; try reflexivity.
    now contradiction Hlen.
  - intros s' H. unfold main in H.
    destruct argv as [|a [|b [|c rest]]]; try discriminate H.
    match type of H with
    | (let (_, _) := ?run in _) = _ => destruct run as [s1 [[]|e]]
    end; inversion H; subst.
    exists (console s1). reflexivity.
  - intros program target_path -> Hdir Hfile. unfold main.
    rewrite Hdir, Hfile. reflexivity.
Qed.

Lemma main_endings_witness :
  main Run.quiet Run.str Run.parse_pass Run.unparse Run.os_walk Run.join
       (fun _ => false) (fun _ => true)
       ["code_optimizer.py"; "notes.txt"] Run.start =
  (say AllOptimized (say (InvalidPath "notes.txt") Run.start), Returned) /\
  main Run.quiet Run.str Run.parse_pass Run.unparse Run.os_walk Run.join
       (fun _ => false) (fun _ => true)
       ["code_optimizer.py"] Run.start =
  (say Usage Run.start, Exited 1).
Proof.
  split.
  - apply (proj2 (proj2 (@main_endings
             Run.quiet Run.str Run.parse_pass Run.unparse Run.os_walk
             Run.join (fun _ => false) (fun _ => true)
             ["code_optimizer.py"; "notes.txt"] Run.start))
             "code_optimizer.py" "notes.txt"); vm_compute; reflexivity.
  - apply (proj1 (@main_endings
             Run.quiet Run.str Run.parse_pass Run.unparse Run.os_walk
             Run.join (fun _ => false) (fun _ => true)
             ["code_optimizer.py"] Run.start)).
    simpl. discriminate.
Defined.
